(** * A shallow embedding of [board_generator.py] (class [CatanBoardGenerator])

    Python values are modelled as follows:
    - a hex tile (a dict with keys 'position', 'terrain', 'number') is the
      record [hex]; terrains are the strings the source uses, numbers are
      Python ints ([Z]) or [None];
    - a board ([List[Dict]]) is a [list hex];
    - a raised exception is [inl cls] with [cls] the name of the exception
      class; a normal return is [inr v];
    - the module-level [random] source is an explicit state [rng]: a
      sequence of raw draws and a read pointer, consumed by [randbelow];
    - Python floats in the scoring code are modelled as real numbers. *)

From Stdlib Require Import List String ZArith Arith Lia Bool Reals Lra.
From Stdlib Require Import Sorting.Permutation.
Import ListNotations.
Open Scope string_scope.

(** ** Data model *)

Record hex := mkHex {
  position : nat;
  terrain : string;
  number : option Z
}.

Definition board := list hex.

(** Result of a Python call: raised exception (class name) or value. *)
Definition res (A : Type) := (string + A)%type.

(** The random source: [draws k] is the raw value of the [k]-th draw. *)
Record rng := mkRng {
  draws : nat -> nat;
  ctr : nat
}.

(** [random._randbelow(n)]: a value in [0, n). *)
Definition randbelow (n : nat) (st : rng) : nat * rng :=
  (draws st (ctr st) mod n, mkRng (draws st) (S (ctr st))).

(** ** [random.shuffle] (CPython's Fisher-Yates loop)

<<
    for i in reversed(range(1, len(x))):
        j = randbelow(i + 1)
        x[i], x[j] = x[j], x[i]
>> *)

Fixpoint set_nth {A} (l : list A) (i : nat) (v : A) : list A :=
  match l, i with
  | [], _ => []
  | _ :: r, O => v :: r
  | x :: r, S i' => x :: set_nth r i' v
  end.

(** [x[i], x[j] = x[j], x[i]]: both right-hand values are read first, then
    [x[i]] is assigned, then [x[j]]. *)
Definition swap {A} (l : list A) (i j : nat) : list A :=
  match nth_error l j, nth_error l i with
  | Some xj, Some xi => set_nth (set_nth l i xj) j xi
  | _, _ => l
  end.

Fixpoint shuffle_from {A} (i : nat) (l : list A) (st : rng) : list A * rng :=
  match i with
  | O => (l, st)
  | S i' =>
      let '(j, st') := randbelow (i + 1) st in
      shuffle_from i' (swap l i j) st'
  end.

Definition shuffle {A} (l : list A) (st : rng) : list A * rng :=
  shuffle_from (List.length l - 1) l st.

(** ** Static data *)

(** [self.adjacency.get(pos, [])] *)
Definition adjacency (pos : nat) : list nat :=
  match pos with
  | 0 => [1; 3; 4]
  | 1 => [0; 2; 4; 5]
  | 2 => [1; 5; 6]
  | 3 => [0; 4; 7; 8]
  | 4 => [0; 1; 3; 5; 8; 9]
  | 5 => [1; 2; 4; 6; 9; 10]
  | 6 => [2; 5; 10; 11]
  | 7 => [3; 8; 12]
  | 8 => [3; 4; 7; 9; 12; 13]
  | 9 => [4; 5; 8; 10; 13; 14]
  | 10 => [5; 6; 9; 11; 14; 15]
  | 11 => [6; 10; 15]
  | 12 => [7; 8; 13; 16]
  | 13 => [8; 9; 12; 14; 16; 17]
  | 14 => [9; 10; 13; 15; 17; 18]
  | 15 => [10; 11; 14; 18]
  | 16 => [12; 13; 17]
  | 17 => [13; 14; 16; 18]
  | 18 => [14; 15; 17]
  | _ => []
  end.

(** [get_pip_count]: [pip_map.get(number, 0)], and [0] for [None]. *)
Definition get_pip_count (n : option Z) : nat :=
  match n with
  | None => 0
  | Some 2%Z => 1 | Some 3%Z => 2 | Some 4%Z => 3 | Some 5%Z => 4
  | Some 6%Z => 5 | Some 8%Z => 5 | Some 9%Z => 4 | Some 10%Z => 3
  | Some 11%Z => 2 | Some 12%Z => 1
  | Some _ => 0
  end.

(** ** [setup_distribution] and the constructor *)

Definition rep {A} (n : nat) (x : A) : list A := repeat x n.

Definition setup_distribution (expansion : string) : option (list string * list Z) :=
  if String.eqb expansion "base" then
    Some ((rep 4 "Forest" ++ rep 4 "Pasture" ++ rep 4 "Field" ++ rep 3 "Hill"
            ++ rep 3 "Mountain" ++ ["Desert"])%list,
          [2; 3; 3; 4; 4; 5; 5; 6; 6; 8; 8; 9; 9; 10; 10; 11; 11; 12]%Z)
  else if String.eqb expansion "5-6player" then
    Some ((rep 6 "Forest" ++ rep 6 "Pasture" ++ rep 6 "Field" ++ rep 5 "Hill"
            ++ rep 5 "Mountain" ++ ["Desert"; "Desert"])%list,
          [2; 2; 3; 3; 3; 4; 4; 4; 5; 5; 5; 6; 6; 6;
           8; 8; 8; 9; 9; 9; 10; 10; 10; 11; 11; 11; 12; 12]%Z)
  else if String.eqb expansion "custom" then
    Some ((rep 3 "Forest" ++ rep 3 "Pasture" ++ rep 3 "Field" ++ rep 3 "Hill"
            ++ rep 3 "Mountain" ++ rep 3 "Gold" ++ ["Desert"])%list,
          [2; 3; 3; 4; 4; 5; 5; 6; 6; 8; 8; 9; 9; 10; 10; 11; 11; 12]%Z)
  else None.

(** The generator object.  For an unknown expansion [setup_distribution]
    assigns neither [self.terrains] nor [self.numbers]: [distribution] is
    [None], and reading those attributes raises [AttributeError]. *)
Record generator := mkGenerator {
  expansion : string;
  distribution : option (list string * list Z)
}.

Definition new_generator (expansion : string) : generator :=
  mkGenerator expansion (setup_distribution expansion).

(** ** [_generate_candidate_board] *)

Definition is_desert (t : string) : bool := String.eqb t "Desert".

(** The [for i, terrain in enumerate(shuffled_terrains)] loop, [ni] being
    [number_index]; an out-of-range [shuffled_numbers[ni]] raises. *)
Fixpoint build_board (i : nat) (ts : list string) (ns : list Z) (ni : nat)
  : res board :=
  match ts with
  | [] => inr []
  | t :: ts' =>
      if is_desert t then
        match build_board (S i) ts' ns ni with
        | inl e => inl e
        | inr rest => inr (mkHex i t None :: rest)
        end
      else
        match nth_error ns ni with
        | None => inl "IndexError"
        | Some n =>
            match build_board (S i) ts' ns (S ni) with
            | inl e => inl e
            | inr rest => inr (mkHex i t (Some n) :: rest)
            end
        end
  end.

Definition generate_candidate_board (g : generator) (st : rng) : res board * rng :=
  match distribution g with
  | None => (inl "AttributeError", st)
  | Some (terrains, numbers) =>
      let '(shuffled_terrains, st1) := shuffle terrains st in
      let '(shuffled_numbers, st2) := shuffle numbers st1 in
      (build_board 0 shuffled_terrains shuffled_numbers 0, st2)
  end.

(** ** Hard constraints *)

Definition is_high (n : option Z) : bool :=
  match n with
  | Some 6%Z | Some 8%Z => true
  | _ => false
  end.

(** [_check_adjacent_high_numbers] *)
Definition check_adjacent_high_numbers (b : board) : bool :=
  let high_value_positions := map position (filter (fun h => is_high (number h)) b) in
  forallb (fun pos =>
    negb (existsb (fun adj_pos => existsb (Nat.eqb adj_pos) high_value_positions)
                  (adjacency pos)))
    high_value_positions.

Definition edge_positions : list nat := [0; 1; 2; 3; 6; 7; 11; 12; 16; 17; 18].

(** [_check_desert_placement] *)
Definition check_desert_placement (b : board) : bool :=
  forallb (fun h =>
    negb (is_desert (terrain h) && existsb (Nat.eqb (position h)) edge_positions)) b.

Definition valid (b : board) : bool :=
  check_adjacent_high_numbers b && check_desert_placement b.

(** ** Scoring (lower is better) *)

Local Open Scope R_scope.

(** [same_terrain_count] in [_score_terrain_clustering]:
    [sum(1 for adj_pos in adjacent_positions
         if adj_pos < len(board) and board[adj_pos]['terrain'] == t)] *)
Definition same_terrain_count (b : board) (pos : nat) (t : string) : nat :=
  List.length (filter (fun adj_pos =>
    (adj_pos <? List.length b)%nat &&
    match nth_error b adj_pos with
    | Some h => String.eqb (terrain h) t
    | None => false
    end) (adjacency pos)).

(** The [for pos, hex_tile in enumerate(board)] loop of
    [_score_terrain_clustering]. *)
Fixpoint clustering_loop (b : board) (pos : nat) (rest : list hex) : nat :=
  match rest with
  | [] => 0
  | hex_tile :: rest' =>
      (if is_desert (terrain hex_tile) then 0
       else let c := same_terrain_count b pos (terrain hex_tile) in
            if (2 <=? c)%nat then c else 0)
      + clustering_loop b (S pos) rest'
  end%nat.

Definition score_terrain_clustering (b : board) : nat := clustering_loop b 0 b.

(** [resource_pips[terrain] = resource_pips.get(terrain, 0) + pip_count]:
    a dict in insertion order. *)
Fixpoint dict_add (d : list (string * nat)) (k : string) (v : nat)
  : list (string * nat) :=
  match d with
  | [] => [(k, v)]
  | (k', v') :: d' =>
      if String.eqb k' k then (k', v' + v)%nat :: d' else (k', v') :: dict_add d' k v
  end.

Definition resource_pips (b : board) : list (string * nat) :=
  fold_left (fun d hex_tile =>
    if is_desert (terrain hex_tile) then d
    else dict_add d (terrain hex_tile) (get_pip_count (number hex_tile))) b [].

Definition Rsum (l : list R) : R := fold_right Rplus 0 l.

(** [_score_resource_balance] *)
Definition score_resource_balance (b : board) : R :=
  match map snd (resource_pips b) with
  | [] => 0
  | vs =>
      let n := INR (List.length vs) in
      let avg_pips := Rsum (map INR vs) / n in
      let variance := Rsum (map (fun v => (INR v - avg_pips) ^ 2) vs) / n in
      sqrt variance
  end.

(** [if adj_pos < len(board) and board[adj_pos]['number']]: a Python int
    is truthy when non-zero. *)
Definition truthy_number (n : option Z) : bool :=
  match n with
  | Some z => negb (Z.eqb z 0)
  | None => false
  end.

(** The [for pos, hex_tile in enumerate(board)] loop of
    [_score_pip_adjacency]. *)
Fixpoint pip_adjacency_loop (b : board) (pos : nat) (rest : list hex) : nat :=
  match rest with
  | [] => 0
  | hex_tile :: rest' =>
      (match number hex_tile with
       | None => 0
       | Some _ =>
           if (get_pip_count (number hex_tile) <? 4)%nat then 0
           else List.length (filter (fun adj_pos =>
                  (adj_pos <? List.length b)%nat &&
                  match nth_error b adj_pos with
                  | Some h => truthy_number (number h) &&
                              (4 <=? get_pip_count (number h))%nat
                  | None => false
                  end) (adjacency pos))
       end) + pip_adjacency_loop b (S pos) rest'
  end%nat.

(** [_score_pip_adjacency]: [penalty / 2]. *)
Definition score_pip_adjacency (b : board) : R :=
  INR (pip_adjacency_loop b 0 b) / 2.

(** [_score_board] *)
Definition score_board (b : board) : R :=
  0 + INR (score_terrain_clustering b) * 10 + score_resource_balance b * 5
    + score_pip_adjacency b * 3.

(** ** [generate_board] *)

(** [score < best_score]; [best_score] starts at [float('inf')], which every
    (finite) score is below: [None] stands for that initial state, where
    [best_board] is also [None]. *)
Definition lt_best (score : R) (best : option (board * R)) : bool :=
  match best with
  | None => true
  | Some (_, best_score) => if Rlt_dec score best_score then true else false
  end.

(** The [for attempt in range(max_attempts)] loop, with the pair
    [(best_board, best_score)] as its state. *)
Fixpoint gen_loop (g : generator) (fuel : nat) (best : option (board * R)) (st : rng)
  : res (option (board * R)) * rng :=
  match fuel with
  | O => (inr best, st)
  | S k =>
      match generate_candidate_board g st with
      | (inl e, st') => (inl e, st')
      | (inr b, st') =>
          if negb (check_adjacent_high_numbers b) then gen_loop g k best st'
          else if negb (check_desert_placement b) then gen_loop g k best st'
          else
            let score := score_board b in
            if lt_best score best then
              if Rlt_dec score 50 then (inr (Some (b, score)), st')
              else gen_loop g k (Some (b, score)) st'
            else gen_loop g k best st'
      end
  end.

(** [return best_board if best_board else self._generate_candidate_board()]:
    a list is truthy when non-empty. *)
Definition generate_board (g : generator) (max_attempts : nat) (st : rng)
  : res board * rng :=
  match gen_loop g max_attempts None st with
  | (inl e, st') => (inl e, st')
  | (inr (Some (b, _)), st') =>
      match b with
      | [] => generate_candidate_board g st'
      | _ => (inr b, st')
      end
  | (inr None, st') => generate_candidate_board g st'
  end.

(** ** Auxiliary definitions for the statements *)

(** The first [n] candidates drawn from [st], in sampling order. *)
Fixpoint sample_n (g : generator) (n : nat) (st : rng) : res (list board) * rng :=
  match n with
  | O => (inr [], st)
  | S k =>
      match generate_candidate_board g st with
      | (inl e, st') => (inl e, st')
      | (inr b, st') =>
          match sample_n g k st' with
          | (inl e, st'') => (inl e, st'')
          | (inr bs, st'') => (inr (b :: bs), st'')
          end
      end
  end.

(** One step of the best-candidate bookkeeping, without the early exit. *)
Definition record_best (best : option (board * R)) (b : board) : option (board * R) :=
  if valid b && lt_best (score_board b) best then Some (b, score_board b) else best.

Definition best_of (l : list board) : option (board * R) := fold_left record_best l None.

(** ** The score as the specification states it

    [score = 10 clusterPenalty + 5 balancePenalty + 3 pipAdjacencyPenalty],
    each component written from its description, to be compared with the
    source's loops above. *)

(** Neighbours of [p] on the board carrying terrain [t]. *)
Definition same_terrain_neighbours (b : board) (p : nat) (t : string) : nat :=
  List.length (filter (fun q =>
    match nth_error b q with
    | Some h => String.eqb (terrain h) t
    | None => false
    end) (adjacency p)).

(** Sum, over non-Desert hexes with at least two same-terrain neighbours,
    of that neighbour count. *)
Definition cluster_penalty_spec (b : board) : nat :=
  list_sum (map (fun p =>
    match nth_error b p with
    | Some h =>
        if is_desert (terrain h) then 0
        else let c := same_terrain_neighbours b p (terrain h) in
             if (2 <=? c)%nat then c else 0
    | None => 0
    end) (seq 0 (List.length b)))%nat.

(** Sum of the pip weights of the hexes of terrain [t]. *)
Definition terrain_total (b : board) (t : string) : nat :=
  list_sum (map (fun h => get_pip_count (number h))
                (filter (fun h => String.eqb (terrain h) t) b)).

(** The terrain types other than Desert present on the board. *)
Definition nondesert_terrains (b : board) : list string :=
  nodup string_dec (map terrain (filter (fun h => negb (is_desert (terrain h))) b)).

Definition mean (xs : list R) : R := Rsum xs / INR (List.length xs).

(** Population standard deviation ([0] for no values). *)
Definition pop_std (xs : list R) : R :=
  match xs with
  | [] => 0
  | _ => sqrt (Rsum (map (fun x => (x - mean xs) ^ 2) xs) / INR (List.length xs))
  end.

Definition balance_penalty_spec (b : board) : R :=
  pop_std (map (fun t => INR (terrain_total b t)) (nondesert_terrains b)).

(** Ordered pairs [(p, q)] of adjacent positions, [p] on the board. *)
Definition adjacent_pairs (b : board) : list (nat * nat) :=
  flat_map (fun p => map (fun q => (p, q)) (adjacency p)) (seq 0 (List.length b)).

Definition pip_at (b : board) (p : nat) : nat :=
  match nth_error b p with
  | Some h => get_pip_count (number h)
  | None => 0
  end.

(** Number of ordered adjacent pairs with both pip weights [>= 4], halved. *)
Definition pip_adjacency_penalty_spec (b : board) : R :=
  INR (List.length (filter (fun pq => (4 <=? pip_at b (fst pq))%nat && (4 <=? pip_at b (snd pq))%nat)
                           (adjacent_pairs b))) / 2.

(** A decision procedure for the symmetry of [adjacency] on [0..18]. *)
Definition adjacency_symmetric_b : bool :=
  forallb (fun a => forallb (fun b =>
    Bool.eqb (existsb (Nat.eqb b) (adjacency a)) (existsb (Nat.eqb a) (adjacency b)))
    (seq 0 19)) (seq 0 19).

(** What the best-candidate pair [(best_board, best_score)] says about the
    candidates [pre] seen so far: [None] if none was valid, otherwise a valid
    candidate of [pre] with its score, no valid candidate of [pre] scoring
    strictly lower, and every valid candidate before it scoring strictly
    higher. *)
Definition best_inv (best : option (board * R)) (pre : list board) : Prop :=
  match best with
  | None => forall j c, nth_error pre j = Some c -> valid c = false
  | Some (b, s) =>
      s = score_board b /\ valid b = true /\
      exists k, nth_error pre k = Some b /\
        (forall j c, nth_error pre j = Some c -> valid c = true -> ~ score_board c < s) /\
        (forall j c, (j < k)%nat -> nth_error pre j = Some c -> valid c = true ->
                     s < score_board c)
  end.

(** The outcome of [gen_loop] from state [best] on [n] attempts: it consumed
    the candidates [cs] (sampled in order, as many as iterations run), its
    result is the bookkeeping over [cs], it ends early only right after
    recording a new best below [50], and every earlier recorded best was
    not below [50]. *)
Definition loop_trace (g : generator) (n : nat) (best : option (board * R)) (st : rng)
  (r : option (board * R)) (st' : rng) : Prop :=
  exists cs,
    (List.length cs <= n)%nat /\
    sample_n g (List.length cs) st = (inr cs, st') /\
    r = fold_left record_best cs best /\
    ((List.length cs < n)%nat ->
       exists cs0 c, cs = (cs0 ++ [c])%list /\ valid c = true /\
         lt_best (score_board c) (fold_left record_best cs0 best) = true /\
         score_board c < 50) /\
    (forall cs0 c rest, cs = (cs0 ++ c :: rest)%list -> rest <> [] -> valid c = true ->
       lt_best (score_board c) (fold_left record_best cs0 best) = true ->
       ~ score_board c < 50).

(** Number tokens carried by the non-Desert hexes of a board, in order. *)
Definition nondesert_numbers (b : board) : list Z :=
  flat_map (fun h => if is_desert (terrain h) then []
                     else match number h with Some n => [n] | None => [] end) b.

Definition count_nondesert (ts : list string) : nat :=
  List.length (filter (fun t => negb (is_desert t)) ts).

(** Concrete random sources used in the examples: raw draws [5k] and [k]. *)
Definition rng_5k : rng := mkRng (fun k => 5 * k)%nat 0.
Definition rng_id : rng := mkRng (fun k => k) 0.

(** ** [display_statistics] *)

(** [terrain_counts[terrain] = terrain_counts.get(terrain, 0) + 1]. *)
Definition terrain_counts (b : board) : list (string * nat) :=
  fold_left (fun d hex_tile => dict_add d (terrain hex_tile) 1%nat) b [].

(** The [resource_pips] dict of [display_statistics]. *)
Definition stats_resource_pips (b : board) : list (string * nat) :=
  fold_left (fun d hex_tile =>
    if negb (is_desert (terrain hex_tile)) then
      dict_add d (terrain hex_tile) (get_pip_count (number hex_tile))
    else d) b [].

(** [high_numbers = [h for h in board if h['number'] in [6, 8]]] *)
Definition high_numbers (b : board) : list hex :=
  filter (fun h => is_high (number h)) b.

(** The [violations] loop: [(pos, adj_pos)] for [pos] enumerating the board. *)
Fixpoint violations_loop (b : board) (pos : nat) (rest : list hex) : list (nat * nat) :=
  match rest with
  | [] => []
  | hex_tile :: rest' =>
      ((if is_high (number hex_tile) then
          map (fun adj_pos => (pos, adj_pos))
            (filter (fun adj_pos =>
               (adj_pos <? List.length b)%nat &&
               match nth_error b adj_pos with
               | Some h => is_high (number h)
               | None => false
               end) (adjacency pos))
        else []) ++ violations_loop b (S pos) rest')%list
  end.

Definition violations (b : board) : list (nat * nat) := violations_loop b 0 b.

(** [desert_on_edge = any(pos in edge_positions for pos in desert_positions)] *)
Definition desert_on_edge (b : board) : bool :=
  let desert_positions := map position (filter (fun h => is_desert (terrain h)) b) in
  existsb (fun pos => existsb (Nat.eqb pos) edge_positions) desert_positions.

(** ** The rows of [display_board] and [display_board_visual] *)

(** [l[i:j]] for [0 <= i <= j]. *)
Definition py_slice {A} (l : list A) (i j : nat) : list A := firstn (j - i) (skipn i l).

Definition list_rows (b : board) : list (list hex) :=
  [py_slice b 0 3; py_slice b 3 7; py_slice b 7 12; py_slice b 12 16; py_slice b 16 19].

(** The [(row_hexes, offset)] pairs of [display_board_visual]. *)
Definition visual_rows (b : board) : list (list hex * nat) :=
  [(py_slice b 0 3, 6%nat); (py_slice b 3 7, 3%nat); (py_slice b 7 12, 0%nat);
   (py_slice b 12 16, 3%nat); (py_slice b 16 19, 6%nat)].

(** ** [main] *)

(** [expansion_map.get(choice, 'base')], [choice] being the stripped input. *)
Definition expansion_map (choice : string) : string :=
  if String.eqb choice "1" then "base"
  else if String.eqb choice "2" then "5-6player"
  else if String.eqb choice "3" then "custom"
  else if String.eqb choice "" then "base"
  else "base".

(** ** Auxiliary definitions for the further properties *)

(** The ordered adjacent pairs of the 19-position table, and its edges
    [(p, q)] with [p < q]. *)
Definition table_pairs : list (nat * nat) :=
  flat_map (fun p => map (fun q => (p, q)) (adjacency p)) (seq 0 19).

Definition adjacent_edges : list (nat * nat) :=
  filter (fun pq => (fst pq <? snd pq)%nat) table_pairs.

Definition pair_eqb (x y : nat * nat) : bool :=
  (Nat.eqb (fst x) (fst y) && Nat.eqb (snd x) (snd y))%bool.

Fixpoint remove_first (x : nat * nat) (l : list (nat * nat)) : option (list (nat * nat)) :=
  match l with
  | [] => None
  | y :: l' =>
      if pair_eqb x y then Some l'
      else match remove_first x l' with
           | Some r => Some (y :: r)
           | None => None
           end
  end.

(** A decision procedure for [Permutation] on lists of pairs. *)
Fixpoint perm_check (l1 l2 : list (nat * nat)) : bool :=
  match l1 with
  | [] => match l2 with [] => true | _ => false end
  | x :: l1' =>
      match remove_first x l2 with
      | Some l2' => perm_check l1' l2'
      | None => false
      end
  end.

Local Close Scope R_scope.
Local Open Scope nat_scope.
Local Open Scope list_scope.

(** * Proofs *)

(** ** The adjacency table *)

Lemma adjacency_range (p q : nat) : In q (adjacency p) -> p < 19 /\ q < 19.
Proof.
  intros H.
  do 19 (destruct p as [|p]; [simpl in H; intuition lia|]).
  destruct H.
Qed.

Lemma adjacency_out_of_range (p : nat) : adjacency (19 + p) = [].
Proof. reflexivity. Qed.

Lemma adjacency_symmetric_b_true : adjacency_symmetric_b = true.
Proof. vm_compute. reflexivity. Qed.

Lemma in_nat_existsb (x : nat) (l : list nat) : In x l <-> existsb (Nat.eqb x) l = true.
Proof.
  rewrite existsb_exists. split.
  - intros H. exists x. split; [exact H | apply Nat.eqb_refl].
  - intros [y [Hy E]]. apply Nat.eqb_eq in E. subst. exact Hy.
Qed.

(** C9: the adjacency relation is symmetric. *)
Theorem adjacency_symmetric (a b : nat) : In b (adjacency a) <-> In a (adjacency b).
Proof.
  destruct (Nat.lt_ge_cases a 19) as [Ha|Ha].
  - destruct (Nat.lt_ge_cases b 19) as [Hb|Hb].
    + pose proof adjacency_symmetric_b_true as T. unfold adjacency_symmetric_b in T.
      rewrite forallb_forall in T. specialize (T a (proj2 (in_seq 19 0 a) (conj (Nat.le_0_l a) Ha))).
      rewrite forallb_forall in T. specialize (T b (proj2 (in_seq 19 0 b) (conj (Nat.le_0_l b) Hb))).
      apply Bool.eqb_prop in T. rewrite !in_nat_existsb, T. reflexivity.
    + split; intros H; apply adjacency_range in H; lia.
  - split; intros H; apply adjacency_range in H; lia.
Qed.

(** ** Hard constraints *)

Lemma is_high_iff (n : option Z) : is_high n = true <-> n = Some 6%Z \/ n = Some 8%Z.
Proof.
  split.
  - destruct n as [z|]; [|discriminate]. simpl.
    destruct z as [|p|p]; try discriminate;
      do 4 (try destruct p as [p|p|]); try discriminate; auto.
  - intros [-> | ->]; reflexivity.
Qed.

Lemma check_adjacent_high_numbers_iff (b : board) :
  check_adjacent_high_numbers b = true <->
  ~ (exists h h', In h b /\ In h' b /\
       (number h = Some 6%Z \/ number h = Some 8%Z) /\
       (number h' = Some 6%Z \/ number h' = Some 8%Z) /\
       In (position h') (adjacency (position h))).
Proof.
  unfold check_adjacent_high_numbers. rewrite forallb_forall. split.
  - intros H [h [h' [Hh [Hh' [Hi [Hi' Hadj]]]]]].
    apply is_high_iff in Hi, Hi'.
    assert (Hp : In (position h) (map position (filter (fun h => is_high (number h)) b))).
    { apply in_map. apply filter_In. auto. }
    specialize (H _ Hp). apply negb_true_iff in H.
    assert (E : existsb (fun adj_pos =>
                  existsb (Nat.eqb adj_pos) (map position (filter (fun h => is_high (number h)) b)))
                  (adjacency (position h)) = true).
    { apply existsb_exists. exists (position h'). split; [exact Hadj|].
      apply in_nat_existsb. apply in_map. apply filter_In. auto. }
    congruence.
  - intros Hn pos Hpos. apply in_map_iff in Hpos. destruct Hpos as [h [<- Hh]].
    apply filter_In in Hh. destruct Hh as [Hh Hi].
    apply negb_true_iff. destruct (existsb _ _) eqn:E; [exfalso|reflexivity].
    apply existsb_exists in E. destruct E as [adj [Hadj E]].
    apply in_nat_existsb in E. apply in_map_iff in E. destruct E as [h' [Hp' Hh']].
    apply filter_In in Hh'. destruct Hh' as [Hh' Hi'].
    apply Hn. exists h, h'. rewrite Hp'. apply is_high_iff in Hi, Hi'. auto 6.
Qed.

(** C4: [_check_adjacent_high_numbers] accepts exactly the boards on which
    no position holding a 6 or an 8 has a neighbour (per [adjacency])
    holding a 6 or an 8. *)
Theorem check_adjacent_high_numbers_correct (b : board) :
  check_adjacent_high_numbers b = true <->
  ~ (exists h h', In h b /\ In h' b /\
       (number h = Some 6%Z \/ number h = Some 8%Z) /\
       (number h' = Some 6%Z \/ number h' = Some 8%Z) /\
       In (position h') (adjacency (position h))).
Proof. exact (check_adjacent_high_numbers_iff b). Qed.

Lemma check_desert_placement_iff (b : board) :
  check_desert_placement b = true <->
  ~ (exists h, In h b /\ terrain h = "Desert" /\
       In (position h) [0; 1; 2; 3; 6; 7; 11; 12; 16; 17; 18]).
Proof.
  unfold check_desert_placement. rewrite forallb_forall. split.
  - intros H [h [Hh [Ht Hp]]]. specialize (H h Hh).
    unfold is_desert in H. rewrite Ht in H.
    apply in_nat_existsb in Hp. unfold edge_positions in H. rewrite Hp in H.
    vm_compute in H. discriminate.
  - intros Hn h Hh. apply negb_true_iff.
    destruct (is_desert (terrain h)) eqn:Ed; [|reflexivity].
    destruct (existsb _ edge_positions) eqn:Ep; [exfalso|reflexivity].
    apply Hn. exists h. split; [exact Hh|]. split.
    + apply String.eqb_eq. exact Ed.
    + apply in_nat_existsb. exact Ep.
Qed.

(** C5: [_check_desert_placement] accepts exactly the boards with no Desert
    hex at an edge position [{0,1,2,3,6,7,11,12,16,17,18}]. *)
Theorem check_desert_placement_correct (b : board) :
  check_desert_placement b = true <->
  ~ (exists h, In h b /\ terrain h = "Desert" /\
       In (position h) [0; 1; 2; 3; 6; 7; 11; 12; 16; 17; 18]).
Proof. exact (check_desert_placement_iff b). Qed.

(** ** The pip table *)

Lemma get_pip_count_other (z : Z) :
  ((2 <=? z)%Z && (z <=? 12)%Z && negb (z =? 7)%Z) = false -> get_pip_count (Some z) = 0.
Proof.
  intros E. destruct z as [|p|p]; try reflexivity.
  do 4 (try destruct p as [p|p|]); try reflexivity; vm_compute in E; discriminate.
Qed.

(** C8 (as amended): the table is the two-dice weight [6 - |n - 7|] on
    [2..12] except [7], and [0] for [None]; every other integer (such as
    [7] or [13]) also gets [0] from [pip_map.get(number, 0)]. *)
Theorem get_pip_count_table :
  get_pip_count None = 0 /\
  (forall z : Z, get_pip_count (Some z) =
     if (2 <=? z)%Z && (z <=? 12)%Z && negb (z =? 7)%Z
     then Z.to_nat (6 - Z.abs (z - 7)) else 0).
Proof.
  split; [reflexivity|]. intros z.
  destruct ((2 <=? z)%Z && (z <=? 12)%Z && negb (z =? 7)%Z) eqn:E.
  - apply andb_prop in E. destruct E as [E E3]. apply andb_prop in E. destruct E as [E1 E2].
    apply Z.leb_le in E1. apply Z.leb_le in E2. apply negb_true_iff, Z.eqb_neq in E3.
    assert (z = 2 \/ z = 3 \/ z = 4 \/ z = 5 \/ z = 6 \/ z = 8 \/ z = 9 \/ z = 10
            \/ z = 11 \/ z = 12)%Z as Hz by lia.
    repeat destruct Hz as [-> | Hz]; try reflexivity; subst; reflexivity.
  - apply get_pip_count_other. exact E.
Qed.

(** C8 refuted: [7] and [13] are not rejected, they get weight [0]. *)
Lemma get_pip_count_7_13 : get_pip_count (Some 7%Z) = 0 /\ get_pip_count (Some 13%Z) = 0.
Proof. split; reflexivity. Qed.

(** ** Unknown expansions *)

Lemma setup_distribution_unknown (name : string) :
  name <> "base" -> name <> "5-6player" -> name <> "custom" ->
  setup_distribution name = None.
Proof.
  intros H1 H2 H3. unfold setup_distribution.
  apply String.eqb_neq in H1, H2, H3. rewrite H1, H2, H3. reflexivity.
Qed.

Lemma generate_board_no_distribution (g : generator) (n : nat) (st : rng) :
  distribution g = None -> generate_board g n st = (inl "AttributeError", st).
Proof.
  intros H. unfold generate_board.
  destruct n; simpl; unfold generate_candidate_board; rewrite H; reflexivity.
Qed.

(** C7 (as amended): for an expansion name other than ['base'],
    ['5-6player'] and ['custom'] the constructor succeeds without pools, and
    [generate_board] raises [AttributeError] at its first sampling (whatever
    [max_attempts] is), before any board is built, leaving the random state
    untouched. *)
Theorem unknown_expansion_attribute_error (name : string) (n : nat) (st : rng) :
  name <> "base" -> name <> "5-6player" -> name <> "custom" ->
  expansion (new_generator name) = name /\
  generate_board (new_generator name) n st = (inl "AttributeError", st).
Proof.
  intros H1 H2 H3. split; [reflexivity|].
  apply generate_board_no_distribution. apply setup_distribution_unknown; assumption.
Qed.

Lemma unknown_expansion_attribute_error_witness :
  ("seafarers" <> "base" /\ "seafarers" <> "5-6player" /\ "seafarers" <> "custom") /\
  expansion (new_generator "seafarers") = "seafarers" /\
  generate_board (new_generator "seafarers") 1000 rng_id = (inl "AttributeError", rng_id).
Proof.
  assert (H1 : "seafarers" <> "base") by discriminate.
  assert (H2 : "seafarers" <> "5-6player") by discriminate.
  assert (H3 : "seafarers" <> "custom") by discriminate.
  split; [auto|]. exact (unknown_expansion_attribute_error "seafarers" 1000 rng_id H1 H2 H3).
Defined.

(** C7 refuted: the error raised for an unknown name is [AttributeError],
    not an [InvalidConfiguration] error. *)
Lemma unknown_expansion_not_invalid_configuration :
  exists e st', generate_board (new_generator "seafarers") 1000 rng_id = (inl e, st') /\
                e <> "InvalidConfiguration".
Proof.
  exists "AttributeError", rng_id. split; [vm_compute; reflexivity | discriminate].
Qed.

(** ** [random.shuffle] permutes its argument *)

Lemma set_nth_length {A} (l : list A) i v : List.length (set_nth l i v) = List.length l.
Proof. revert i; induction l as [|x l IH]; intros [|i]; simpl; auto. Qed.

Lemma set_nth_app {A} (l r : list A) k v :
  set_nth (l ++ r) (List.length l + k) v = l ++ set_nth r k v.
Proof. induction l as [|x l IH]; simpl; [reflexivity|]. rewrite IH. reflexivity. Qed.

Lemma swap_perm {A} (l : list A) (i j : nat) :
  j <= i -> i < List.length l -> Permutation (swap l i j) l /\ List.length (swap l i j) = List.length l.
Proof.
  intros Hji Hi. unfold swap.
  destruct (nth_error l i) as [xi|] eqn:Ei;
    [|apply nth_error_None in Ei; lia].
  destruct (nth_error l j) as [xj|] eqn:Ej;
    [|apply nth_error_None in Ej; lia].
  apply nth_error_split in Ej. destruct Ej as [P [R [-> HP]]].
  destruct (Nat.eq_dec i j) as [->|Hne].
  - rewrite nth_error_app2 in Ei by lia. rewrite HP, Nat.sub_diag in Ei. simpl in Ei.
    injection Ei as <-.
    rewrite <- HP, <- (Nat.add_0_r (List.length P)), !set_nth_app. simpl.
    split; reflexivity.
  - rewrite nth_error_app2 in Ei by lia.
    replace (i - List.length P) with (S (i - j - 1)) in Ei by lia. simpl in Ei.
    apply nth_error_split in Ei. destruct Ei as [M [C [-> HM]]].
    replace i with (List.length P + S (List.length M + 0)) by lia.
    rewrite set_nth_app. simpl. rewrite set_nth_app. simpl.
    rewrite <- HP, <- (Nat.add_0_r (List.length P)), set_nth_app. simpl.
    split.
    + apply Permutation_app_head.
      apply Permutation_trans with (xi :: xj :: M ++ C).
      { apply perm_skip. apply Permutation_sym, Permutation_middle. }
      apply Permutation_trans with (xj :: xi :: M ++ C); [apply perm_swap|].
      apply perm_skip. apply Permutation_middle.
    + rewrite !length_app. simpl. rewrite !length_app. reflexivity.
Qed.

Lemma randbelow_lt (n : nat) (st : rng) : n <> 0 -> fst (randbelow n st) < n.
Proof. intros H. simpl. apply Nat.mod_upper_bound. exact H. Qed.

Lemma shuffle_from_perm {A} (i : nat) (l : list A) (st : rng) :
  (i = 0 \/ i < List.length l) -> Permutation (fst (shuffle_from i l st)) l.
Proof.
  revert l st. induction i as [|i IH]; intros l st Hi; cbn [shuffle_from]; [reflexivity|].
  destruct Hi as [Hi|Hi]; [discriminate|].
  pose proof (randbelow_lt (S i + 1) st ltac:(lia)) as Hj.
  destruct (randbelow (S i + 1) st) as [j st'] eqn:E. simpl in Hj.
  destruct (swap_perm l (S i) j ltac:(lia) Hi) as [Hp Hl].
  eapply Permutation_trans; [apply IH | exact Hp]. lia.
Qed.

Lemma shuffle_perm {A} (l : list A) (st : rng) : Permutation (fst (shuffle l st)) l.
Proof. apply shuffle_from_perm. destruct l; simpl; lia. Qed.

Lemma Permutation_filter' {A} (f : A -> bool) (l l' : list A) :
  Permutation l l' -> Permutation (filter f l) (filter f l').
Proof.
  induction 1; simpl.
  - constructor.
  - destruct (f x); auto.
  - destruct (f x), (f y); auto; constructor.
  - eapply Permutation_trans; eauto.
Qed.

(** ** [_generate_candidate_board] *)

Lemma skipn_nth_error {A} (l : list A) (n : nat) (x : A) :
  nth_error l n = Some x -> skipn n l = x :: skipn (S n) l.
Proof.
  revert n; induction l as [|a l IH]; intros [|n] H; simpl in *; try discriminate.
  - injection H as ->. reflexivity.
  - apply IH. exact H.
Qed.

Lemma build_board_ok (ts : list string) :
  forall i ns ni, count_nondesert ts + ni <= List.length ns ->
  exists b, build_board i ts ns ni = inr b /\
    List.length b = List.length ts /\
    (forall k h, nth_error b k = Some h -> position h = i + k) /\
    map terrain b = ts /\
    nondesert_numbers b = firstn (count_nondesert ts) (skipn ni ns) /\
    (forall h, In h b -> (terrain h = "Desert" -> number h = None) /\
                         (terrain h <> "Desert" -> exists n, number h = Some n)).
Proof.
  induction ts as [|t ts IH]; intros i ns ni Hc.
  - exists []. split; [reflexivity|]. split; [reflexivity|].
    split; [intros [|k] ? ?; discriminate|]. split; [reflexivity|].
    split; [reflexivity|]. intros ? [].
  - unfold count_nondesert in Hc |- *. simpl in Hc |- *.
    destruct (is_desert t) eqn:Ed; simpl in Hc |- *.
    + destruct (IH (S i) ns ni Hc) as [b [Hb [Hl [Hp [Ht [Hn Hs]]]]]].
      rewrite Hb. exists (mkHex i t None :: b).
      split; [reflexivity|]. split; [|split; [|split; [|split; [|intros h0 Hh0; split]]]].
      * simpl. rewrite Hl. reflexivity.
      * intros [|k] h H; simpl in H; [injection H as <-; simpl; lia|].
        rewrite (Hp k h H). lia.
      * simpl. rewrite Ht. reflexivity.
      * unfold nondesert_numbers. simpl. rewrite Ed. exact Hn.
      * destruct Hh0 as [<-|H]; [reflexivity|apply Hs; exact H].
      * destruct Hh0 as [<-|H]; intros Hd; [simpl in Hd; apply String.eqb_eq in Ed; contradiction|].
        apply Hs; assumption.
    + destruct (nth_error ns ni) as [n|] eqn:En; [|apply nth_error_None in En; lia].
      destruct (IH (S i) ns (S ni) ltac:(unfold count_nondesert; lia)) as [b [Hb [Hl [Hp [Ht [Hn Hs]]]]]].
      rewrite Hb. exists (mkHex i t (Some n) :: b).
      split; [reflexivity|]. split; [|split; [|split; [|split; [|intros h0 Hh0; split]]]].
      * simpl. rewrite Hl. reflexivity.
      * intros [|k] h H; simpl in H; [injection H as <-; simpl; lia|].
        rewrite (Hp k h H). lia.
      * simpl. rewrite Ht. reflexivity.
      * unfold nondesert_numbers in Hn |- *. simpl. rewrite Ed. simpl.
        rewrite Hn, (skipn_nth_error ns ni n En). reflexivity.
      * destruct Hh0 as [<-|H]; intros Hd; [simpl in Hd; rewrite Hd in Ed; discriminate|].
        apply Hs; assumption.
      * destruct Hh0 as [<-|H]; [intros _; exists n; reflexivity|apply Hs; exact H].
Qed.

Lemma setup_distribution_counts (name : string) (ts : list string) (ns : list Z) :
  setup_distribution name = Some (ts, ns) -> count_nondesert ts = List.length ns.
Proof.
  unfold setup_distribution.
  destruct (String.eqb name "base"); [intros H; injection H as <- <-; reflexivity|].
  destruct (String.eqb name "5-6player"); [intros H; injection H as <- <-; reflexivity|].
  destruct (String.eqb name "custom"); [intros H; injection H as <- <-; reflexivity|].
  discriminate.
Qed.

Lemma generate_candidate_board_ok (g : generator) (ts : list string) (ns : list Z) (st : rng) :
  distribution g = Some (ts, ns) -> count_nondesert ts = List.length ns ->
  exists b st', generate_candidate_board g st = (inr b, st') /\
    List.length b = List.length ts /\
    (forall k h, nth_error b k = Some h -> position h = k) /\
    Permutation (map terrain b) ts /\
    Permutation (nondesert_numbers b) ns /\
    (forall h, In h b -> (terrain h = "Desert" -> number h = None) /\
                         (terrain h <> "Desert" -> exists n, number h = Some n)).
Proof.
  intros Hd Hc. unfold generate_candidate_board. rewrite Hd.
  pose proof (shuffle_perm ts st) as Pt.
  destruct (shuffle ts st) as [sts st1]. simpl in Pt.
  pose proof (shuffle_perm ns st1) as Pn.
  destruct (shuffle ns st1) as [sns st2]. simpl in Pn.
  assert (Hc' : count_nondesert sts + 0 = List.length sns).
  { unfold count_nondesert in *. rewrite Nat.add_0_r.
    rewrite (Permutation_length (Permutation_filter' _ _ _ Pt)), (Permutation_length Pn).
    exact Hc. }
  destruct (build_board_ok sts 0 sns 0 ltac:(lia)) as [b [Hb [Hl [Hp [Ht [Hn Hs]]]]]].
  exists b, st2. rewrite Hb. split; [reflexivity|].
  split; [|split; [|split; [|split]]].
  - rewrite Hl. apply Permutation_length. exact Pt.
  - intros k h H. exact (Hp k h H).
  - rewrite Ht. exact Pt.
  - rewrite Hn, skipn_O. rewrite Nat.add_0_r in Hc'. rewrite Hc', firstn_all. exact Pn.
  - exact Hs.
Qed.

(** C2: for each of the three expansions, every sampled candidate has one
    hex per position [0..N-1] in order ([N] the number of terrain tiles), its
    terrains are a permutation of the expansion's terrains, the numbers on
    its non-Desert hexes are a permutation of the expansion's numbers,
    Desert hexes carry no number and every other hex carries one. *)
Theorem candidate_board_preserves_distribution
  (name : string) (terrains : list string) (numbers : list Z) (st : rng) :
  setup_distribution name = Some (terrains, numbers) ->
  exists b st', generate_candidate_board (new_generator name) st = (inr b, st') /\
    List.length b = List.length terrains /\
    (forall k h, nth_error b k = Some h -> position h = k) /\
    Permutation (map terrain b) terrains /\
    Permutation (nondesert_numbers b) numbers /\
    (forall h, In h b -> (terrain h = "Desert" -> number h = None) /\
                         (terrain h <> "Desert" -> exists n, number h = Some n)).
Proof.
  intros H. apply generate_candidate_board_ok.
  - exact H.
  - apply (setup_distribution_counts name). exact H.
Qed.

Lemma candidate_board_preserves_distribution_witness :
  exists terrains numbers, setup_distribution "base" = Some (terrains, numbers) /\
  exists b st', generate_candidate_board (new_generator "base") rng_5k = (inr b, st') /\
    List.length b = List.length terrains /\
    (forall k h, nth_error b k = Some h -> position h = k) /\
    Permutation (map terrain b) terrains /\
    Permutation (nondesert_numbers b) numbers /\
    (forall h, In h b -> (terrain h = "Desert" -> number h = None) /\
                         (terrain h <> "Desert" -> exists n, number h = Some n)).
Proof.
  do 2 eexists. split; [reflexivity|].
  apply (candidate_board_preserves_distribution "base"). reflexivity.
Defined.

(** ** Best-candidate bookkeeping *)

Lemma nth_error_snoc {A} (l : list A) (x : A) (j : nat) (y : A) :
  nth_error (l ++ [x]) j = Some y ->
  (j < List.length l /\ nth_error l j = Some y) \/ (j = List.length l /\ y = x).
Proof.
  intros H. destruct (Nat.lt_ge_cases j (List.length l)) as [Hj|Hj].
  - left. rewrite nth_error_app1 in H by exact Hj. auto.
  - right. rewrite nth_error_app2 in H by exact Hj.
    destruct (j - List.length l) as [|d] eqn:E; simpl in H.
    + injection H as <-. split; [lia|reflexivity].
    + destruct d; discriminate.
Qed.

Lemma best_inv_nil : best_inv None [].
Proof. intros [|j] c H; discriminate. Qed.

Lemma best_inv_record (best : option (board * R)) (pre : list board) (c : board) :
  best_inv best pre -> best_inv (record_best best c) (pre ++ [c]).
Proof.
  unfold record_best. intros Hinv.
  destruct (valid c) eqn:Vc; simpl.
  - destruct best as [[b s]|]; simpl in Hinv |- *.
    + destruct Hinv as [Hs [Vb [k [Hk [Hmin Hfirst]]]]].
      destruct (Rlt_dec (score_board c) s) as [Hlt|Hge]; simpl.
      * split; [reflexivity|]. split; [exact Vc|].
        exists (List.length pre). split; [rewrite nth_error_app2, Nat.sub_diag by lia; reflexivity|].
        split.
        -- intros j c' Hj Vc'. apply nth_error_snoc in Hj.
           destruct Hj as [[_ Hj]|[_ ->]]; [|apply Rlt_irrefl].
           intros Hc'. apply (Hmin j c' Hj Vc'). eapply Rlt_trans; eassumption.
        -- intros j c' Hjk Hj Vc'. rewrite nth_error_app1 in Hj by exact Hjk.
           apply Rlt_le_trans with s; [exact Hlt|].
           apply Rnot_lt_le. exact (Hmin j c' Hj Vc').
      * split; [exact Hs|]. split; [exact Vb|]. exists k.
        assert (Hkl : (k < List.length pre)%nat) by (apply nth_error_Some; congruence).
        split; [rewrite nth_error_app1 by exact Hkl; exact Hk|]. split.
        -- intros j c' Hj Vc'. apply nth_error_snoc in Hj.
           destruct Hj as [[_ Hj]|[_ ->]]; [exact (Hmin j c' Hj Vc')|exact Hge].
        -- intros j c' Hjk Hj Vc'. rewrite nth_error_app1 in Hj by lia.
           exact (Hfirst j c' Hjk Hj Vc').
    + split; [reflexivity|]. split; [exact Vc|].
      exists (List.length pre). split; [rewrite nth_error_app2, Nat.sub_diag by lia; reflexivity|].
      split.
      * intros j c' Hj Vc'. apply nth_error_snoc in Hj.
        destruct Hj as [[_ Hj]|[_ ->]]; [rewrite (Hinv j c' Hj) in Vc'; discriminate|].
        apply Rlt_irrefl.
      * intros j c' Hjk Hj Vc'. rewrite nth_error_app1 in Hj by exact Hjk.
        rewrite (Hinv j c' Hj) in Vc'. discriminate.
  - destruct best as [[b s]|]; simpl in Hinv |- *.
    + destruct Hinv as [Hs [Vb [k [Hk [Hmin Hfirst]]]]].
      split; [exact Hs|]. split; [exact Vb|]. exists k.
      assert (Hkl : (k < List.length pre)%nat) by (apply nth_error_Some; congruence).
      split; [rewrite nth_error_app1 by exact Hkl; exact Hk|]. split.
      * intros j c' Hj Vc'. apply nth_error_snoc in Hj.
        destruct Hj as [[_ Hj]|[_ ->]]; [exact (Hmin j c' Hj Vc')|congruence].
      * intros j c' Hjk Hj Vc'. rewrite nth_error_app1 in Hj by lia.
        exact (Hfirst j c' Hjk Hj Vc').
    + intros j c' Hj. apply nth_error_snoc in Hj.
      destruct Hj as [[_ Hj]|[_ ->]]; [exact (Hinv j c' Hj)|exact Vc].
Qed.

Lemma best_inv_fold (l pre : list board) (best : option (board * R)) :
  best_inv best pre -> best_inv (fold_left record_best l best) (pre ++ l).
Proof.
  revert pre best. induction l as [|c l IH]; intros pre best H; simpl.
  - rewrite app_nil_r. exact H.
  - replace (pre ++ c :: l) with ((pre ++ [c]) ++ l) by (rewrite <- app_assoc; reflexivity).
    apply IH. apply best_inv_record. exact H.
Qed.

Lemma best_of_inv (l : list board) : best_inv (fold_left record_best l None) l.
Proof. apply (best_inv_fold l []). apply best_inv_nil. Qed.


(** ** The search loop of [generate_board] *)

Lemma lt_best_self (b : board) (s : R) : lt_best s (Some (b, s)) = false.
Proof. simpl. destruct (Rlt_dec s s) as [H|]; [exfalso; exact (Rlt_irrefl s H)|reflexivity]. Qed.

Lemma loop_trace_skip (g : generator) (k : nat) (best : option (board * R))
  (st st1 st' : rng) (b : board) (r : option (board * R)) :
  generate_candidate_board g st = (inr b, st1) ->
  record_best best b = best ->
  loop_trace g k best st1 r st' -> loop_trace g (S k) best st r st'.
Proof.
  intros Eg Hrec [cs [Hlen [Hs [Hr [Hearly Hlast]]]]].
  exists (b :: cs). split; [simpl; lia|]. split.
  { simpl. rewrite Eg, Hs. reflexivity. }
  split; [simpl; rewrite Hrec; exact Hr|]. split.
  - intros Hlt. destruct (Hearly ltac:(simpl in Hlt; lia)) as [cs0 [c [-> [Vc [Lc Sc]]]]].
    exists (b :: cs0), c. simpl. rewrite Hrec. auto.
  - intros [|b' cs0] c rest Heq Hne Vc Lc.
    + simpl in Heq. injection Heq as <- _. simpl in Lc.
      unfold record_best in Hrec. rewrite Vc, Lc in Hrec. simpl in Hrec.
      rewrite <- Hrec, lt_best_self in Lc. discriminate.
    + simpl in Heq. injection Heq as <- Heq. simpl in Lc. rewrite Hrec in Lc.
      exact (Hlast cs0 c rest Heq Hne Vc Lc).
Qed.

Lemma loop_trace_record (g : generator) (k : nat) (best : option (board * R))
  (st st1 st' : rng) (b : board) (r : option (board * R)) :
  generate_candidate_board g st = (inr b, st1) ->
  valid b = true -> lt_best (score_board b) best = true ->
  ~ (score_board b < 50)%R ->
  loop_trace g k (Some (b, score_board b)) st1 r st' -> loop_trace g (S k) best st r st'.
Proof.
  intros Eg Vb Lb Nb [cs [Hlen [Hs [Hr [Hearly Hlast]]]]].
  assert (Hrec : record_best best b = Some (b, score_board b))
    by (unfold record_best; rewrite Vb, Lb; reflexivity).
  exists (b :: cs). split; [simpl; lia|]. split.
  { simpl. rewrite Eg, Hs. reflexivity. }
  split; [simpl; rewrite Hrec; exact Hr|]. split.
  - intros Hlt. destruct (Hearly ltac:(simpl in Hlt; lia)) as [cs0 [c [-> [Vc [Lc Sc]]]]].
    exists (b :: cs0), c. simpl. rewrite Hrec. auto.
  - intros [|b' cs0] c rest Heq Hne Vc Lc.
    + simpl in Heq. injection Heq as <- _. exact Nb.
    + simpl in Heq. injection Heq as <- Heq. simpl in Lc. rewrite Hrec in Lc.
      exact (Hlast cs0 c rest Heq Hne Vc Lc).
Qed.

Lemma gen_loop_trace (g : generator) (n : nat) :
  forall best st r st', gen_loop g n best st = (inr r, st') -> loop_trace g n best st r st'.
Proof.
  induction n as [|k IH]; intros best st r st' H.
  - simpl in H. injection H as <- <-. exists []. split; [simpl; lia|]. split; [reflexivity|].
    split; [reflexivity|]. split.
    + simpl. lia.
    + intros cs0 c rest Heq. destruct cs0; discriminate.
  - cbn [gen_loop] in H.
    destruct (generate_candidate_board g st) as [[e|b] st1] eqn:Eg; [discriminate|].
    destruct (check_adjacent_high_numbers b) eqn:C1; cbn [negb] in H.
    2: { apply loop_trace_skip with st1 b; [exact Eg| |exact (IH _ _ _ _ H)].
         unfold record_best, valid. rewrite C1. reflexivity. }
    destruct (check_desert_placement b) eqn:C2; cbn [negb] in H.
    2: { apply loop_trace_skip with st1 b; [exact Eg| |exact (IH _ _ _ _ H)].
         unfold record_best, valid. rewrite C1, C2. reflexivity. }
    assert (Vb : valid b = true) by (unfold valid; rewrite C1, C2; reflexivity).
    destruct (lt_best (score_board b) best) eqn:Lb.
    + destruct (Rlt_dec (score_board b) 50) as [Hlt|Hge].
      * injection H as <- <-. exists [b]. split; [simpl; lia|]. split.
        { simpl. rewrite Eg. reflexivity. }
        split; [simpl; unfold record_best; rewrite Vb, Lb; reflexivity|]. split.
        -- intros _. exists [], b. auto.
        -- intros [|b' cs0] c rest Heq Hne; simpl in Heq; injection Heq as Heq1 Heq2.
           ++ subst rest. contradiction.
           ++ destruct cs0; discriminate.
      * apply loop_trace_record with st1 b; auto.
    + apply loop_trace_skip with st1 b; [exact Eg| |exact (IH _ _ _ _ H)].
      unfold record_best. rewrite Vb, Lb. reflexivity.
Qed.

Lemma sample_n_candidates (g : generator) (m : nat) :
  forall st cs st', sample_n g m st = (inr cs, st') ->
  forall c, In c cs -> exists st0 st1, generate_candidate_board g st0 = (inr c, st1).
Proof.
  induction m as [|m IH]; intros st cs st' H c Hc.
  - simpl in H. injection H as <- _. destruct Hc.
  - simpl in H. destruct (generate_candidate_board g st) as [[e|b] st1] eqn:Eg; [discriminate|].
    destruct (sample_n g m st1) as [[e|bs] st2] eqn:Es; [discriminate|].
    injection H as <- _. destruct Hc as [<-|Hc].
    + exists st, st1. exact Eg.
    + exact (IH st1 bs st2 Es c Hc).
Qed.






(** ** The fallback path of [generate_board] *)

Lemma gen_loop_all_invalid (g : generator) (n : nat) :
  forall best st cs st1, sample_n g n st = (inr cs, st1) ->
  (forall c, In c cs -> valid c = false) ->
  gen_loop g n best st = (inr best, st1).
Proof.
  induction n as [|k IH]; intros best st cs st1 Hs Hinv.
  - simpl in Hs. injection Hs as _ <-. reflexivity.
  - simpl in Hs. destruct (generate_candidate_board g st) as [[e|b] st'] eqn:Eg; [discriminate|].
    destruct (sample_n g k st') as [[e|bs] st2] eqn:Es; [discriminate|].
    injection Hs as <- ->.
    assert (Vb : valid b = false) by (apply Hinv; left; reflexivity).
    cbn [gen_loop]. rewrite Eg.
    destruct (check_adjacent_high_numbers b) eqn:C1; cbn [negb].
    + destruct (check_desert_placement b) eqn:C2; cbn [negb].
      * unfold valid in Vb. rewrite C1, C2 in Vb. discriminate.
      * apply (IH best st' bs st1 Es). intros c Hc. apply Hinv. right. exact Hc.
    + apply (IH best st' bs st1 Es). intros c Hc. apply Hinv. right. exact Hc.
Qed.

(** C6: for each of the three expansions and every [max_attempts], if none
    of the candidates sampled by the loop passes both hard constraints,
    [generate_board] raises nothing: it returns one more freshly sampled
    candidate, exactly what [_generate_candidate_board] yields from the
    random state the loop left, with no check and no score; such a board can
    violate the hard constraints (as it does for ['base'] with the random
    source [rng_id] and one attempt). *)
Theorem generate_board_fallback
  (name : string) (terrains : list string) (numbers : list Z)
  (n : nat) (st : rng) (cs : list board) (st1 : rng) :
  setup_distribution name = Some (terrains, numbers) ->
  sample_n (new_generator name) n st = (inr cs, st1) ->
  (forall c, In c cs -> valid c = false) ->
  generate_board (new_generator name) n st = generate_candidate_board (new_generator name) st1 /\
  (exists b st', generate_candidate_board (new_generator name) st1 = (inr b, st')) /\
  (exists b st', generate_board (new_generator "base") 1 rng_id = (inr b, st') /\
                 valid b = false).
Proof.
  intros Hd Hs Hinv. split; [|split].
  - unfold generate_board. rewrite (gen_loop_all_invalid _ n None st cs st1 Hs Hinv).
    reflexivity.
  - destruct (generate_candidate_board_ok (new_generator name) terrains numbers st1 Hd
                (setup_distribution_counts name terrains numbers Hd)) as [b [st' [Eb _]]].
    exists b, st'. exact Eb.
  - assert (V : match fst (generate_board (new_generator "base") 1 rng_id) with
                | inr b => negb (valid b) | inl _ => false end = true)
      by (vm_compute; reflexivity).
    destruct (generate_board (new_generator "base") 1 rng_id) as [[e|b] st'];
      cbn [fst] in V; [discriminate|].
    exists b, st'. split; [reflexivity|]. apply negb_true_iff. exact V.
Qed.

Lemma generate_board_fallback_witness :
  exists terrains numbers cs st1,
  setup_distribution "base" = Some (terrains, numbers) /\
  sample_n (new_generator "base") 1 rng_id = (inr cs, st1) /\
  (forall c, In c cs -> valid c = false) /\
  (generate_board (new_generator "base") 1 rng_id =
     generate_candidate_board (new_generator "base") st1 /\
   (exists b st', generate_candidate_board (new_generator "base") st1 = (inr b, st')) /\
   (exists b st', generate_board (new_generator "base") 1 rng_id = (inr b, st') /\
                  valid b = false)).
Proof.
  assert (V : match fst (sample_n (new_generator "base") 1 rng_id) with
              | inr cs => forallb (fun c => negb (valid c)) cs | inl _ => false end = true)
    by (vm_compute; reflexivity).
  destruct (sample_n (new_generator "base") 1 rng_id) as [[e|cs] st1] eqn:Es;
    cbn [fst] in V; [discriminate|].
  assert (Hinv : forall c, In c cs -> valid c = false).
  { intros c Hc. rewrite forallb_forall in V. apply negb_true_iff. exact (V c Hc). }
  do 2 eexists. exists cs, st1.
  split; [reflexivity|]. split; [reflexivity|]. split; [exact Hinv|].
  eapply (generate_board_fallback "base"); [reflexivity|exact Es|exact Hinv].
Defined.

(** ** Positions outside the 19-hex table *)

Lemma adjacency_ge_19 (p : nat) : 19 <= p -> adjacency p = [].
Proof. intros H. replace p with (19 + (p - 19)) by lia. apply adjacency_out_of_range. Qed.

Lemma firstn_19_agree (b : board) (q : nat) :
  q < 19 ->
  (q <? List.length b) = (q <? List.length (firstn 19 b)) /\
  nth_error b q = nth_error (firstn 19 b) q.
Proof.
  intros Hq. rewrite length_firstn, nth_error_firstn.
  replace (q <? 19) with true by (symmetry; apply Nat.ltb_lt; exact Hq).
  split; [|reflexivity].
  destruct (Nat.ltb_spec q (List.length b)), (Nat.ltb_spec q (Nat.min 19 (List.length b)));
    try reflexivity; lia.
Qed.

Section Agree.
(** Two boards that agree on the positions [0..18] (their length test and
    their hex there), as [b] and [firstn 19 b] do. *)
Variables b b' : board.
Hypothesis Hagree : forall q, q < 19 ->
  (q <? List.length b) = (q <? List.length b') /\ nth_error b q = nth_error b' q.

Lemma same_terrain_count_agree (pos : nat) (t : string) :
  same_terrain_count b pos t = same_terrain_count b' pos t.
Proof.
  unfold same_terrain_count. f_equal. apply filter_ext_in.
  intros q Hq. apply adjacency_range in Hq. destruct (Hagree q (proj2 Hq)) as [E1 E2].
  rewrite E1, E2. reflexivity.
Qed.

Lemma clustering_loop_agree (pos : nat) (rest : list hex) :
  clustering_loop b pos rest = clustering_loop b' pos rest.
Proof.
  revert pos. induction rest as [|h rest IH]; intros pos; simpl; [reflexivity|].
  rewrite same_terrain_count_agree, IH. reflexivity.
Qed.

Lemma pip_adjacency_loop_agree (pos : nat) (rest : list hex) :
  pip_adjacency_loop b pos rest = pip_adjacency_loop b' pos rest.
Proof.
  revert pos. induction rest as [|h rest IH]; intros pos; simpl; [reflexivity|].
  rewrite IH. f_equal. destruct (number h); [|reflexivity].
  destruct (_ <? 4); [reflexivity|]. f_equal. apply filter_ext_in.
  intros q Hq. apply adjacency_range in Hq. destruct (Hagree q (proj2 Hq)) as [E1 E2].
  rewrite E1, E2. reflexivity.
Qed.
End Agree.

Lemma clustering_loop_app (b : board) (pos : nat) (r1 r2 : list hex) :
  clustering_loop b pos (r1 ++ r2) =
  clustering_loop b pos r1 + clustering_loop b (pos + List.length r1) r2.
Proof.
  revert pos. induction r1 as [|h r1 IH]; intros pos; simpl.
  - rewrite Nat.add_0_r. reflexivity.
  - rewrite IH. replace (S pos + List.length r1) with (pos + S (List.length r1)) by lia. lia.
Qed.

Lemma pip_adjacency_loop_app (b : board) (pos : nat) (r1 r2 : list hex) :
  pip_adjacency_loop b pos (r1 ++ r2) =
  pip_adjacency_loop b pos r1 + pip_adjacency_loop b (pos + List.length r1) r2.
Proof.
  revert pos. induction r1 as [|h r1 IH]; intros pos; simpl.
  - rewrite Nat.add_0_r. reflexivity.
  - rewrite IH. replace (S pos + List.length r1) with (pos + S (List.length r1)) by lia. lia.
Qed.

Lemma clustering_loop_far (b : board) (pos : nat) (rest : list hex) :
  19 <= pos -> clustering_loop b pos rest = 0.
Proof.
  revert pos. induction rest as [|h rest IH]; intros pos Hp; simpl; [reflexivity|].
  rewrite IH by lia. unfold same_terrain_count. rewrite (adjacency_ge_19 pos Hp). simpl.
  destruct (is_desert (terrain h)); reflexivity.
Qed.

Lemma pip_adjacency_loop_far (b : board) (pos : nat) (rest : list hex) :
  19 <= pos -> pip_adjacency_loop b pos rest = 0.
Proof.
  revert pos. induction rest as [|h rest IH]; intros pos Hp; simpl; [reflexivity|].
  rewrite IH by lia. rewrite (adjacency_ge_19 pos Hp). simpl.
  destruct (number h); [|reflexivity]. destruct (_ <? 4); reflexivity.
Qed.

Lemma clustering_firstn_19 (b : board) :
  score_terrain_clustering b = score_terrain_clustering (firstn 19 b).
Proof.
  unfold score_terrain_clustering.
  rewrite <- (firstn_skipn 19 b) at 2. rewrite clustering_loop_app.
  rewrite (clustering_loop_agree b (firstn 19 b) (firstn_19_agree b)).
  destruct (Nat.le_gt_cases 19 (List.length b)) as [H|H].
  - rewrite (clustering_loop_far _ (0 + List.length (firstn 19 b))) by (rewrite length_firstn; lia).
    lia.
  - rewrite skipn_all2 by lia. simpl. lia.
Qed.

Lemma pip_adjacency_firstn_19 (b : board) :
  pip_adjacency_loop b 0 b = pip_adjacency_loop (firstn 19 b) 0 (firstn 19 b).
Proof.
  rewrite <- (firstn_skipn 19 b) at 2. rewrite pip_adjacency_loop_app.
  rewrite (pip_adjacency_loop_agree b (firstn 19 b) (firstn_19_agree b)).
  destruct (Nat.le_gt_cases 19 (List.length b)) as [H|H].
  - rewrite (pip_adjacency_loop_far _ (0 + List.length (firstn 19 b))) by (rewrite length_firstn; lia).
    lia.
  - rewrite skipn_all2 by lia. simpl. lia.
Qed.

Lemma candidate_length (name : string) (ts : list string) (ns : list Z) (st0 st1 : rng) (c : board) :
  setup_distribution name = Some (ts, ns) ->
  generate_candidate_board (new_generator name) st0 = (inr c, st1) -> List.length c = List.length ts.
Proof.
  intros Hd Eg.
  destruct (generate_candidate_board_ok (new_generator name) ts ns st0 Hd
              (setup_distribution_counts name ts ns Hd)) as [b [st' [Eb [Hl _]]]].
  rewrite Eg in Eb. injection Eb as <- _. exact Hl.
Qed.

Lemma gen_loop_ok (name : string) (ts : list string) (ns : list Z) :
  setup_distribution name = Some (ts, ns) ->
  forall n best st, exists r st', gen_loop (new_generator name) n best st = (inr r, st').
Proof.
  intros Hd n. induction n as [|k IH]; intros best st.
  - exists best, st. reflexivity.
  - cbn [gen_loop].
    destruct (generate_candidate_board_ok (new_generator name) ts ns st Hd
                (setup_distribution_counts name ts ns Hd)) as [b [st1 [Eg _]]].
    rewrite Eg.
    destruct (check_adjacent_high_numbers b); cbn [negb]; [|apply IH].
    destruct (check_desert_placement b); cbn [negb]; [|apply IH].
    destruct (lt_best (score_board b) best); [|apply IH].
    destruct (Rlt_dec (score_board b) 50); [eexists; eexists; reflexivity|apply IH].
Qed.

Lemma generate_board_ok (name : string) (ts : list string) (ns : list Z) (n : nat) (st : rng) :
  setup_distribution name = Some (ts, ns) ->
  exists b st', generate_board (new_generator name) n st = (inr b, st') /\
                List.length b = List.length ts.
Proof.
  intros Hd.
  assert (Hfb : forall st1, exists b st', generate_candidate_board (new_generator name) st1 = (inr b, st') /\
                List.length b = List.length ts).
  { intros st1.
    destruct (generate_candidate_board_ok (new_generator name) ts ns st1 Hd
                (setup_distribution_counts name ts ns Hd)) as [b [st' [Eb [Hl _]]]].
    exists b, st'. auto. }
  destruct (gen_loop_ok name ts ns Hd n None st) as [r [st1 E]].
  unfold generate_board. rewrite E.
  destruct r as [[b s]|]; [|apply Hfb].
  destruct (gen_loop_trace _ _ _ _ _ _ E) as [cs [_ [Hs [Hr _]]]].
  pose proof (best_of_inv cs) as Hinv. rewrite <- Hr in Hinv.
  destruct Hinv as [_ [_ [k [Hk _]]]].
  destruct (sample_n_candidates _ _ _ _ _ Hs b (nth_error_In _ _ Hk)) as [st0 [st2 Eg]].
  pose proof (candidate_length name ts ns st0 st2 b Hd Eg) as Hl.
  destruct b as [|h b']; [apply Hfb|]. exists (h :: b'), st1. auto.
Qed.

(** C10: positions from [19] on have no neighbours, so on the 30-hex boards
    of ['5-6player'] every check and score is total (and [generate_board]
    always returns a 30-hex board) but hexes there are isolated:
    [_check_adjacent_high_numbers] and [_check_desert_placement] give the
    same verdict as on the board without the hexes at positions [>= 19],
    and the clustering and pip-adjacency penalties are those of the first
    19 hexes. *)
Theorem positions_beyond_18_isolated :
  (forall p, adjacency (19 + p) = []) /\
  (forall b, check_adjacent_high_numbers b =
             check_adjacent_high_numbers (filter (fun h => position h <? 19) b)) /\
  (forall b, check_desert_placement b =
             check_desert_placement (filter (fun h => position h <? 19) b)) /\
  (forall b, score_terrain_clustering b = score_terrain_clustering (firstn 19 b)) /\
  (forall b, score_pip_adjacency b = score_pip_adjacency (firstn 19 b)) /\
  (forall n st, exists b st', generate_board (new_generator "5-6player") n st = (inr b, st') /\
                              List.length b = 30).
Proof.
  split; [exact adjacency_out_of_range|]. split; [|split; [|split; [|split]]].
  - intros b. apply Bool.eq_iff_eq_true. rewrite !check_adjacent_high_numbers_iff.
    split; intros Hn Hex; apply Hn.
    + destruct Hex as [h [h' [Hh [Hh' [Hi [Hi' Ha]]]]]].
      apply filter_In in Hh, Hh'. exists h, h'. intuition.
    + destruct Hex as [h [h' [Hh [Hh' [Hi [Hi' Ha]]]]]].
      pose proof (adjacency_range _ _ Ha) as [R1 R2].
      exists h, h'. rewrite !filter_In, !Nat.ltb_lt. intuition.
  - intros b. apply Bool.eq_iff_eq_true. rewrite !check_desert_placement_iff.
    split; intros Hn Hex; apply Hn.
    + destruct Hex as [h [Hh [Ht Hp]]]. apply filter_In in Hh. exists h. intuition.
    + destruct Hex as [h [Hh [Ht Hp]]]. exists h. rewrite filter_In, Nat.ltb_lt.
      assert (Hlt : position h < 19).
      { simpl in Hp. repeat (destruct Hp as [Hp|Hp]; [lia|]). contradiction. }
      auto.
  - exact clustering_firstn_19.
  - intros b. unfold score_pip_adjacency. rewrite pip_adjacency_firstn_19. reflexivity.
  - intros n st. exact (generate_board_ok "5-6player" _ _ n st eq_refl).
Qed.

(** ** The score components *)

Lemma same_terrain_count_spec (b : board) (p : nat) (t : string) :
  same_terrain_count b p t = same_terrain_neighbours b p t.
Proof.
  unfold same_terrain_count, same_terrain_neighbours. f_equal. apply filter_ext.
  intros q. destruct (Nat.ltb_spec q (List.length b)) as [H|H]; [reflexivity|].
  simpl. rewrite (proj2 (nth_error_None b q) H). reflexivity.
Qed.

Lemma clustering_loop_spec (b : board) (rest : list hex) :
  forall pos, (forall i, i < List.length rest -> nth_error b (pos + i) = nth_error rest i) ->
  clustering_loop b pos rest =
  list_sum (map (fun p =>
    match nth_error b p with
    | Some h =>
        if is_desert (terrain h) then 0
        else let c := same_terrain_neighbours b p (terrain h) in
             if 2 <=? c then c else 0
    | None => 0
    end) (seq pos (List.length rest))).
Proof.
  induction rest as [|h rest IH]; intros pos Hal; [reflexivity|].
  simpl. rewrite IH.
  - pose proof (Hal 0 ltac:(simpl; lia)) as E. rewrite Nat.add_0_r in E. simpl in E.
    rewrite E, same_terrain_count_spec. reflexivity.
  - intros i Hi. replace (S pos + i) with (pos + S i) by lia.
    apply (Hal (S i)). simpl. lia.
Qed.

Lemma score_terrain_clustering_spec (b : board) :
  score_terrain_clustering b = cluster_penalty_spec b.
Proof.
  unfold score_terrain_clustering, cluster_penalty_spec. apply clustering_loop_spec.
  intros i _. reflexivity.
Qed.

Lemma truthy_number_pip (n : option Z) :
  truthy_number n = false -> get_pip_count n = 0.
Proof.
  destruct n as [z|]; [|reflexivity]. simpl. intros H. apply negb_false_iff, Z.eqb_eq in H.
  subst. reflexivity.
Qed.

Lemma length_filter_flat_map {A B} (f : B -> bool) (g : A -> list B) (l : list A) :
  List.length (filter f (flat_map g l)) = list_sum (map (fun a => List.length (filter f (g a))) l).
Proof.
  induction l as [|a l IH]; simpl; [reflexivity|].
  rewrite filter_app, length_app, IH. reflexivity.
Qed.

Lemma filter_false_nil {A} (f : A -> bool) (l : list A) :
  (forall a, f a = false) -> filter f l = [].
Proof. intros H. induction l as [|a l IH]; simpl; [reflexivity|]. rewrite H. exact IH. Qed.

Lemma pip_adjacency_loop_spec (b : board) (rest : list hex) :
  forall pos, (forall i, i < List.length rest -> nth_error b (pos + i) = nth_error rest i) ->
  pip_adjacency_loop b pos rest =
  list_sum (map (fun p => List.length (filter
     (fun pq => (4 <=? pip_at b (fst pq)) && (4 <=? pip_at b (snd pq)))
     (map (fun q => (p, q)) (adjacency p)))) (seq pos (List.length rest))).
Proof.
  induction rest as [|h rest IH]; intros pos Hal; [reflexivity|].
  cbn [pip_adjacency_loop List.length seq map list_sum]. rewrite IH.
  2: { intros i Hi. replace (S pos + i) with (pos + S i) by lia.
       apply (Hal (S i)). simpl. lia. }
  cbn [list_sum fold_right]. f_equal.
  pose proof (Hal 0 ltac:(simpl; lia)) as E. rewrite Nat.add_0_r in E. simpl in E.
  assert (Hp : pip_at b pos = get_pip_count (number h)) by (unfold pip_at; rewrite E; reflexivity).
  rewrite filter_map_swap, length_map. cbn [fst snd]. rewrite Hp.
  destruct (number h) as [z|] eqn:Hn.
  - destruct (get_pip_count (Some z) <? 4) eqn:Hlt.
    + symmetry. rewrite filter_false_nil; [reflexivity|].
      intros q. apply Nat.ltb_lt in Hlt.
      replace (4 <=? get_pip_count (Some z)) with false by (symmetry; apply Nat.leb_gt; lia).
      reflexivity.
    + f_equal. apply filter_ext. intros q.
      apply Nat.ltb_ge in Hlt. replace (4 <=? get_pip_count (Some z)) with true
        by (symmetry; apply Nat.leb_le; exact Hlt).
      simpl. unfold pip_at.
      destruct (Nat.ltb_spec q (List.length b)) as [Hq|Hq].
      * simpl. destruct (nth_error b q) as [h'|]; [|reflexivity].
        destruct (truthy_number (number h')) eqn:Ht; [reflexivity|].
        rewrite (truthy_number_pip _ Ht). reflexivity.
      * rewrite (proj2 (nth_error_None b q) Hq). reflexivity.
  - symmetry. rewrite filter_false_nil; reflexivity.
Qed.

Lemma score_pip_adjacency_spec (b : board) :
  score_pip_adjacency b = pip_adjacency_penalty_spec b.
Proof.
  unfold score_pip_adjacency, pip_adjacency_penalty_spec, adjacent_pairs.
  rewrite length_filter_flat_map, pip_adjacency_loop_spec; [reflexivity|].
  intros i _. reflexivity.
Qed.

(** ** The resource balance *)

Lemma dict_add_keys (d : list (string * nat)) (k : string) (v : nat) (k' : string) :
  In k' (map fst (dict_add d k v)) <-> k' = k \/ In k' (map fst d).
Proof.
  induction d as [|[k0 v0] d IH]; simpl.
  - intuition.
  - destruct (String.eqb_spec k0 k) as [->|Hne]; simpl; [intuition|].
    rewrite IH. intuition.
Qed.

Lemma dict_add_nodup (d : list (string * nat)) (k : string) (v : nat) :
  NoDup (map fst d) -> NoDup (map fst (dict_add d k v)).
Proof.
  induction d as [|[k0 v0] d IH]; simpl; intros H.
  - constructor; [intros []|constructor].
  - inversion H as [|x l Hnin Hnd]; subst.
    destruct (String.eqb_spec k0 k) as [->|Hne]; simpl; [exact H|].
    constructor; [|exact (IH Hnd)].
    rewrite dict_add_keys. intuition.
Qed.

Lemma dict_add_values (T : string -> nat) (d : list (string * nat)) (k : string) (v : nat) :
  (forall k' v', In (k', v') d -> v' = T k') ->
  (~ In k (map fst d) -> T k = 0) ->
  NoDup (map fst d) ->
  forall k' v', In (k', v') (dict_add d k v) -> v' = T k' + (if String.eqb k k' then v else 0).
Proof.
  induction d as [|[k0 v0] d IH]; simpl; intros Hv H0 Hnd k' v' Hin.
  - destruct Hin as [Hin|[]]. injection Hin as <- <-. rewrite String.eqb_refl, H0 by auto.
    reflexivity.
  - inversion Hnd as [|x l Hnin Hnd']; subst.
    destruct (String.eqb_spec k0 k) as [->|Hne]; simpl in Hin.
    + destruct Hin as [Hin|Hin].
      * injection Hin as <- <-. rewrite String.eqb_refl, (Hv k v0) by auto. reflexivity.
      * rewrite (Hv k' v') by auto.
        destruct (String.eqb_spec k k') as [<-|]; [|lia].
        exfalso. apply Hnin. apply in_map_iff. exists (k, v'). auto.
    + destruct Hin as [Hin|Hin].
      * injection Hin as <- <-. rewrite (Hv k0 v0) by auto.
        destruct (String.eqb_spec k k0) as [->|]; [contradiction|lia].
      * apply IH; auto. intros Hn. apply H0. intros [|]; contradiction.
Qed.

Lemma terrain_total_snoc (pre : list hex) (h : hex) (k : string) :
  terrain_total (pre ++ [h]) k =
  terrain_total pre k + (if String.eqb (terrain h) k then get_pip_count (number h) else 0).
Proof.
  unfold terrain_total. rewrite filter_app, map_app, list_sum_app. simpl.
  destruct (String.eqb (terrain h) k); simpl; lia.
Qed.

Lemma nondesert_key (pre : list hex) (k : string) :
  In k (map terrain (filter (fun h => negb (is_desert (terrain h))) pre)) -> is_desert k = false.
Proof.
  intros H. apply in_map_iff in H. destruct H as [h [<- Hh]].
  apply filter_In in Hh. destruct Hh as [_ Hd]. apply negb_true_iff. exact Hd.
Qed.

Lemma terrain_total_absent (pre : list hex) (t : string) :
  is_desert t = false ->
  ~ In t (map terrain (filter (fun h => negb (is_desert (terrain h))) pre)) ->
  terrain_total pre t = 0.
Proof.
  intros Hd Hn. unfold terrain_total.
  induction pre as [|h pre IH]; simpl in *; [reflexivity|].
  destruct (String.eqb_spec (terrain h) t) as [Ht|Ht].
  - exfalso. apply Hn. rewrite Ht, Hd. simpl. left. exact Ht.
  - apply IH. intros Hin. apply Hn. destruct (negb (is_desert (terrain h))); simpl; auto.
Qed.

(** Invariant of the dict [resource_pips] after the hexes [pre]. *)
Lemma resource_pips_fold (l : list hex) :
  forall pre d,
  NoDup (map fst d) ->
  (forall k, In k (map fst d) <->
             In k (map terrain (filter (fun h => negb (is_desert (terrain h))) pre))) ->
  (forall k v, In (k, v) d -> v = terrain_total pre k) ->
  let d' := fold_left (fun d hex_tile =>
              if is_desert (terrain hex_tile) then d
              else dict_add d (terrain hex_tile) (get_pip_count (number hex_tile))) l d in
  NoDup (map fst d') /\
  (forall k, In k (map fst d') <->
             In k (map terrain (filter (fun h => negb (is_desert (terrain h))) (pre ++ l)))) /\
  (forall k v, In (k, v) d' -> v = terrain_total (pre ++ l) k).
Proof.
  induction l as [|h l IH]; intros pre d Hnd Hk Hv; simpl.
  - rewrite app_nil_r. auto.
  - replace (pre ++ h :: l) with ((pre ++ [h]) ++ l) by (rewrite <- app_assoc; reflexivity).
    apply IH.
    + destruct (is_desert (terrain h)); [exact Hnd|apply dict_add_nodup; exact Hnd].
    + intros k. rewrite filter_app, map_app, in_app_iff. simpl.
      destruct (is_desert (terrain h)) eqn:Hd; simpl.
      * rewrite Hk. intuition.
      * rewrite dict_add_keys, Hk. intuition.
    + intros k v Hin. rewrite terrain_total_snoc.
      destruct (is_desert (terrain h)) eqn:Hd.
      * rewrite (Hv k v Hin).
        assert (Hk' : is_desert k = false).
        { apply (nondesert_key pre). apply Hk. apply in_map_iff. exists (k, v). auto. }
        destruct (String.eqb_spec (terrain h) k) as [<-|]; [congruence|lia].
      * apply (dict_add_values (terrain_total pre) d (terrain h) _ Hv); auto.
        intros Hn. apply terrain_total_absent; [exact Hd|]. rewrite <- Hk. exact Hn.
Qed.

Lemma resource_pips_perm (b : board) :
  Permutation (map snd (resource_pips b)) (map (terrain_total b) (nondesert_terrains b)).
Proof.
  destruct (resource_pips_fold b [] [] ltac:(constructor) ltac:(simpl; tauto)
              ltac:(intros k v [])) as [Hnd [Hk Hv]].
  fold (resource_pips b) in Hnd, Hk, Hv. simpl in Hk, Hv.
  assert (E : map snd (resource_pips b) = map (terrain_total b) (map fst (resource_pips b))).
  { rewrite map_map. apply map_ext_in. intros [k v] Hin. simpl. exact (Hv k v Hin). }
  rewrite E. apply Permutation_map. apply NoDup_Permutation; [exact Hnd|apply NoDup_nodup|].
  intros k. unfold nondesert_terrains. rewrite nodup_In. apply Hk.
Qed.

Lemma Rsum_perm (l l' : list R) : Permutation l l' -> Rsum l = Rsum l'.
Proof.
  induction 1; unfold Rsum in *; simpl; lra.
Qed.

Lemma pop_std_perm (l l' : list R) : Permutation l l' -> pop_std l = pop_std l'.
Proof.
  intros H. destruct l as [|x xs].
  - apply Permutation_nil in H. subst. reflexivity.
  - destruct l' as [|y ys]; [apply Permutation_sym, Permutation_nil in H; discriminate|].
    assert (Hm : mean (x :: xs) = mean (y :: ys)).
    { unfold mean. rewrite (Rsum_perm _ _ H), (Permutation_length H). reflexivity. }
    unfold pop_std. rewrite Hm, (Permutation_length H).
    rewrite (Rsum_perm _ _ (Permutation_map (fun x0 : R => ((x0 - mean (y :: ys)) ^ 2)%R) H)).
    reflexivity.
Qed.

Lemma score_resource_balance_spec (b : board) :
  score_resource_balance b = balance_penalty_spec b.
Proof.
  assert (E : score_resource_balance b = pop_std (map INR (map snd (resource_pips b)))).
  { unfold score_resource_balance.
    destruct (map snd (resource_pips b)) as [|v vs]; [reflexivity|].
    unfold pop_std, mean. rewrite map_map, length_map. reflexivity. }
  rewrite E. unfold balance_penalty_spec. apply pop_std_perm.
  rewrite <- (map_map (terrain_total b) INR). apply Permutation_map. apply resource_pips_perm.
Qed.

Lemma pop_std_nonneg (xs : list R) : (0 <= pop_std xs)%R.
Proof. destruct xs; simpl; [lra|apply sqrt_pos]. Qed.

(** C3: the score of every board is [10 * clusterPenalty + 5 * balancePenalty
    + 3 * pipAdjacencyPenalty], with the three penalties as the specification
    describes them (same-terrain neighbour counts of at least two summed over the
    non-Desert hexes; population standard deviation of the per-terrain pip sums,
    Desert excluded; ordered adjacent pairs with both pip weights at least four,
    halved), and the score is never negative. *)
Theorem score_board_formula (b : board) :
  (score_board b = 10 * INR (cluster_penalty_spec b) + 5 * balance_penalty_spec b
                   + 3 * pip_adjacency_penalty_spec b /\ 0 <= score_board b)%R.
Proof.
  unfold score_board.
  rewrite score_terrain_clustering_spec, score_resource_balance_spec, score_pip_adjacency_spec.
  split; [ring|].
  pose proof (pos_INR (cluster_penalty_spec b)).
  pose proof (pop_std_nonneg (map (fun t => INR (terrain_total b t)) (nondesert_terrains b))).
  unfold balance_penalty_spec, pip_adjacency_penalty_spec.
  pose proof (pos_INR (List.length (filter (fun pq => (4 <=? pip_at b (fst pq)) && (4 <=? pip_at b (snd pq)))
                           (adjacent_pairs b)))).
  lra.
Qed.

(** * Further properties of the code *)

(** ** Every board [generate_board] returns is a candidate *)

Lemma gen_loop_preserves (g : generator) (P : board -> Prop) :
  (forall st b st', generate_candidate_board g st = (inr b, st') -> P b) ->
  forall n best st r st', gen_loop g n best st = (inr r, st') ->
  (forall b s, best = Some (b, s) -> P b) -> forall b s, r = Some (b, s) -> P b.
Proof.
  intros HP n. induction n as [|k IH]; intros best st r st' E Hb.
  - cbn [gen_loop] in E. injection E as <- _. exact Hb.
  - cbn [gen_loop] in E.
    destruct (generate_candidate_board g st) as [[e|c] st1] eqn:Eg; [discriminate|].
    destruct (negb (check_adjacent_high_numbers c)); [exact (IH _ _ _ _ E Hb)|].
    destruct (negb (check_desert_placement c)); [exact (IH _ _ _ _ E Hb)|].
    destruct (lt_best (score_board c) best); [|exact (IH _ _ _ _ E Hb)].
    destruct (Rlt_dec (score_board c) 50).
    + injection E as <- _. intros b s Hs. injection Hs as <- _. exact (HP _ _ _ Eg).
    + apply (IH _ _ _ _ E). intros b s Hs. injection Hs as <- _. exact (HP _ _ _ Eg).
Qed.

Lemma generate_board_preserves (g : generator) (P : board -> Prop) :
  (forall st b st', generate_candidate_board g st = (inr b, st') -> P b) ->
  forall n st b st', generate_board g n st = (inr b, st') -> P b.
Proof.
  intros HP n st b st' E. unfold generate_board in E.
  destruct (gen_loop g n None st) as [[e|[[c s]|]] st1] eqn:El; [discriminate| |].
  - destruct c as [|h c'].
    + exact (HP _ _ _ E).
    + injection E as <- _.
      exact (gen_loop_preserves g P HP n None st _ st1 El
               (fun b s H => ltac:(discriminate H)) _ s eq_refl).
  - exact (HP _ _ _ E).
Qed.

(** The properties of [generate_candidate_board_ok] hold of every board a
    candidate draw yields. *)
Lemma candidate_props (name : string) (ts : list string) (ns : list Z) :
  setup_distribution name = Some (ts, ns) ->
  forall st b st', generate_candidate_board (new_generator name) st = (inr b, st') ->
    List.length b = List.length ts /\
    (forall k h, nth_error b k = Some h -> position h = k) /\
    Permutation (map terrain b) ts /\
    Permutation (nondesert_numbers b) ns /\
    (forall h, In h b -> (terrain h = "Desert" -> number h = None) /\
                         (terrain h <> "Desert" -> exists n, number h = Some n)).
Proof.
  intros Hd st b st' E.
  destruct (generate_candidate_board_ok (new_generator name) ts ns st Hd
              (setup_distribution_counts name ts ns Hd)) as [b' [st'' [E' P]]].
  rewrite E in E'. injection E' as <- _. exact P.
Qed.

(** X1: Whatever path it takes (a board kept by the loop or the fallback draw),
    [generate_board] on one of the three expansions returns, for every
    [max_attempts], a board with the profile's terrains rearranged, one hex
    per terrain token, hex [k] at position [k], no number on a Desert, one
    number on every other hex, and the number tokens of the profile
    rearranged. *)
Theorem generate_board_result_is_candidate
  (name : string) (terrains : list string) (numbers : list Z) (n : nat) (st : rng) :
  setup_distribution name = Some (terrains, numbers) ->
  exists b st', generate_board (new_generator name) n st = (inr b, st') /\
    List.length b = List.length terrains /\
    (forall k h, nth_error b k = Some h -> position h = k) /\
    Permutation (map terrain b) terrains /\
    Permutation (nondesert_numbers b) numbers /\
    (forall h, In h b -> (terrain h = "Desert" -> number h = None) /\
                         (terrain h <> "Desert" -> exists n, number h = Some n)).
Proof.
  intros Hd.
  destruct (generate_board_ok name terrains numbers n st Hd) as [b [st' [E _]]].
  exists b, st'. split; [exact E|].
  exact (generate_board_preserves (new_generator name) _
           (candidate_props name terrains numbers Hd) n st b st' E).
Qed.

Lemma generate_board_result_is_candidate_witness :
  exists terrains numbers,
  setup_distribution "5-6player" = Some (terrains, numbers) /\
  exists b st', generate_board (new_generator "5-6player") 1000 rng_5k = (inr b, st') /\
    List.length b = List.length terrains /\
    (forall k h, nth_error b k = Some h -> position h = k) /\
    Permutation (map terrain b) terrains /\
    Permutation (nondesert_numbers b) numbers /\
    (forall h, In h b -> (terrain h = "Desert" -> number h = None) /\
                         (terrain h <> "Desert" -> exists n, number h = Some n)).
Proof.
  do 2 eexists. split; [reflexivity|].
  apply (generate_board_result_is_candidate "5-6player"). reflexivity.
Defined.

(** ** High-value hexes of the generated boards *)

Lemma high_numbers_nondesert (b : board) :
  (forall h, In h b -> (terrain h = "Desert" -> number h = None) /\
                       (terrain h <> "Desert" -> exists n, number h = Some n)) ->
  List.length (high_numbers b) =
  List.length (filter (fun z => is_high (Some z)) (nondesert_numbers b)).
Proof.
  unfold high_numbers. induction b as [|h b IH]; intros Hb; [reflexivity|].
  assert (Eh : nondesert_numbers (h :: b) =
                (if is_desert (terrain h) then []
                 else match number h with Some n => [n] | None => [] end)
                ++ nondesert_numbers b) by reflexivity.
  rewrite Eh, filter_app, length_app. cbn [filter].
  rewrite <- IH by (intros h' Hh'; apply Hb; right; exact Hh').
  destruct (Hb h (or_introl eq_refl)) as [Hd Hn].
  unfold is_desert. destruct (String.eqb_spec (terrain h) "Desert") as [E|E].
  - rewrite (Hd E). reflexivity.
  - destruct (Hn E) as [z Ez]. rewrite Ez. cbn [filter].
    destruct (is_high (Some z)); reflexivity.
Qed.

(** X2: Every board [generate_board] returns (for every [max_attempts]) has
    exactly four hexes numbered 6 or 8 (the list [display_statistics]
    reports as high-value hexes) for the 'base' and 'custom' expansions,
    and exactly six for '5-6player'. *)
Theorem generate_board_high_value_count
  (name : string) (terrains : list string) (numbers : list Z) (n : nat) (st : rng) :
  setup_distribution name = Some (terrains, numbers) ->
  exists b st', generate_board (new_generator name) n st = (inr b, st') /\
    List.length (high_numbers b) = (if String.eqb name "5-6player" then 6 else 4).
Proof.
  intros Hd.
  destruct (generate_board_ok name terrains numbers n st Hd) as [b [st' [E _]]].
  exists b, st'. split; [exact E|].
  destruct (generate_board_preserves (new_generator name) _
              (candidate_props name terrains numbers Hd) n st b st' E)
    as [_ [_ [_ [Hp Hb]]]].
  rewrite (high_numbers_nondesert b Hb).
  rewrite (Permutation_length (Permutation_filter' (fun z => is_high (Some z)) _ _ Hp)).
  unfold setup_distribution in Hd.
  destruct (String.eqb_spec name "base") as [->|N1]; [injection Hd as _ <-; reflexivity|].
  destruct (String.eqb_spec name "5-6player") as [->|N2]; [injection Hd as _ <-; reflexivity|].
  destruct (String.eqb_spec name "custom") as [->|N3]; [injection Hd as _ <-; reflexivity|].
  discriminate.
Qed.

Lemma generate_board_high_value_count_witness :
  exists terrains numbers,
  setup_distribution "custom" = Some (terrains, numbers) /\
  exists b st', generate_board (new_generator "custom") 1000 rng_id = (inr b, st') /\
    List.length (high_numbers b) = (if String.eqb "custom" "5-6player" then 6 else 4).
Proof.
  destruct (setup_distribution "custom") as [[ts ns]|] eqn:Hd;
    [|vm_compute in Hd; discriminate Hd].
  exists ts, ns. split; [reflexivity|].
  exact (generate_board_high_value_count "custom" ts ns 1000 rng_id Hd).
Defined.

(** ** [main] *)

Lemma generate_board_ok_len (name : string) (n : nat) (st : rng) (len : nat) :
  match setup_distribution name with Some (ts, _) => List.length ts = len | None => False end ->
  exists b st', generate_board (new_generator name) n st = (inr b, st') /\ List.length b = len.
Proof.
  destruct (setup_distribution name) as [[ts ns]|] eqn:Hd; [|contradiction]. intros L.
  destruct (generate_board_ok name ts ns n st Hd) as [b [st' [E L']]].
  exists b, st'. split; [exact E|]. lia.
Qed.

(** X3: Whatever the user types at the expansion prompt of [main], the
    generator it builds yields a board from [generate_board()] (default
    [max_attempts = 1000]) without raising: 30 hexes for the choice '2',
    19 for every other input. *)
Theorem main_board_for_every_choice (choice : string) (st : rng) :
  exists b st', generate_board (new_generator (expansion_map choice)) 1000 st = (inr b, st') /\
    List.length b = (if String.eqb choice "2" then 30 else 19).
Proof.
  unfold expansion_map.
  destruct (String.eqb_spec choice "1") as [->|N1];
    [apply generate_board_ok_len; reflexivity|].
  destruct (String.eqb_spec choice "2") as [->|N2];
    [apply generate_board_ok_len; reflexivity|].
  destruct (String.eqb choice "3"); [apply generate_board_ok_len; reflexivity|].
  destruct (String.eqb choice ""); apply generate_board_ok_len; reflexivity.
Qed.

(** ** [display_statistics] *)

Lemma adjacency_sym_table (a c : nat) : In c (adjacency a) -> In a (adjacency c).
Proof.
  intros H. destruct (adjacency_range a c H) as [Ha Hc].
  pose proof adjacency_symmetric_b_true as T. unfold adjacency_symmetric_b in T.
  rewrite forallb_forall in T. specialize (T a (proj2 (in_seq 19 0 a) (conj (Nat.le_0_l a) Ha))).
  rewrite forallb_forall in T. specialize (T c (proj2 (in_seq 19 0 c) (conj (Nat.le_0_l c) Hc))).
  apply Bool.eqb_prop in T. apply in_nat_existsb. rewrite <- T. apply in_nat_existsb. exact H.
Qed.

Lemma violations_loop_In (b : board) (rest : list hex) :
  forall pos p q, In (p, q) (violations_loop b pos rest) <->
  exists k h, nth_error rest k = Some h /\ p = pos + k /\ is_high (number h) = true /\
    In q (adjacency p) /\ (q <? List.length b) = true /\
    match nth_error b q with Some h' => is_high (number h') | None => false end = true.
Proof.
  induction rest as [|h rest IH]; intros pos p q; cbn [violations_loop].
  - split; [intros []|]. intros [k [h [E _]]]. destruct k; discriminate.
  - rewrite in_app_iff, IH. split.
    + intros [Hin|[k [h' [E [Ep R]]]]].
      * destruct (is_high (number h)) eqn:Ei; [|destruct Hin].
        apply in_map_iff in Hin. destruct Hin as [q' [Eq Hq]]. injection Eq as <- <-.
        apply filter_In in Hq. destruct Hq as [Hq Hc]. apply andb_prop in Hc.
        exists 0, h. rewrite Nat.add_0_r. tauto.
      * exists (S k), h'. split; [exact E|]. split; [lia|exact R].
    + intros [k [h' [E [Ep [Hi [Ha [Hl Hh]]]]]]]. destruct k as [|k].
      * cbn [nth_error] in E. injection E as <-. left. rewrite Hi.
        rewrite Nat.add_0_r in Ep. subst p.
        apply in_map_iff. exists q. split; [reflexivity|].
        apply filter_In. split; [exact Ha|]. rewrite Hl, Hh. reflexivity.
      * right. exists k, h'. split; [exact E|]. split; [lia|auto].
Qed.

Lemma violations_In (b : board) (p q : nat) :
  In (p, q) (violations b) <->
  exists h h', nth_error b p = Some h /\ nth_error b q = Some h' /\
    is_high (number h) = true /\ is_high (number h') = true /\ In q (adjacency p).
Proof.
  unfold violations. rewrite violations_loop_In. split.
  - intros [k [h [E [Ep [Hi [Ha [_ Hh]]]]]]]. simpl in Ep. subst k.
    destruct (nth_error b q) as [h'|] eqn:Eq; [|discriminate].
    exists h, h'. auto.
  - intros [h [h' [E [E' [Hi [Hi' Ha]]]]]]. exists p, h.
    split; [exact E|]. split; [reflexivity|]. split; [exact Hi|]. split; [exact Ha|].
    split; [apply Nat.ltb_lt, nth_error_Some; congruence|]. rewrite E'. exact Hi'.
Qed.

(** X4: The adjacency warnings of [display_statistics] list the pair
    [(p, q)] exactly when board indices [p] and [q] exist, are adjacent,
    and both hold a 6 or an 8; so every such pair is reported in both
    orders. *)
Theorem violations_adjacent_high_pairs (b : board) (p q : nat) :
  (In (p, q) (violations b) <->
   exists h h', nth_error b p = Some h /\ nth_error b q = Some h' /\
     (number h = Some 6%Z \/ number h = Some 8%Z) /\
     (number h' = Some 6%Z \/ number h' = Some 8%Z) /\ In q (adjacency p)) /\
  (In (p, q) (violations b) <-> In (q, p) (violations b)).
Proof.
  split.
  - rewrite violations_In. split.
    + intros [h [h' [E [E' [Hi [Hi' Ha]]]]]]. exists h, h'.
      rewrite <- !is_high_iff. auto.
    + intros [h [h' [E [E' [Hi [Hi' Ha]]]]]]. exists h, h'.
      rewrite !is_high_iff. auto.
  - rewrite !violations_In. split; intros [h [h' [E [E' [Hi [Hi' Ha]]]]]];
      exists h', h; repeat split; auto using adjacency_sym_table.
Qed.

(** X5: On a board whose hex at index [k] has position [k] (every board the
    generator builds), [display_statistics] finds no adjacent 6/8 pair
    exactly when [_check_adjacent_high_numbers] accepts the board. *)
Theorem violations_empty_iff_check (b : board) :
  (forall k h, nth_error b k = Some h -> position h = k) ->
  (violations b = [] <-> check_adjacent_high_numbers b = true).
Proof.
  intros Hpos. rewrite check_adjacent_high_numbers_iff. split.
  - intros Hv [h [h' [Hh [Hh' [Hi [Hi' Ha]]]]]].
    apply In_nth_error in Hh, Hh'. destruct Hh as [k E]. destruct Hh' as [k' E'].
    rewrite (Hpos k h E), (Hpos k' h' E') in Ha.
    assert (Hin : In (k, k') (violations b)).
    { apply violations_In. exists h, h'. rewrite !is_high_iff. auto. }
    rewrite Hv in Hin. destruct Hin.
  - intros Hn. destruct (violations b) as [|[p q] r] eqn:Ev; [reflexivity|].
    exfalso. assert (Hin : In (p, q) (violations b)) by (rewrite Ev; left; reflexivity).
    apply violations_In in Hin. destruct Hin as [h [h' [E [E' [Hi [Hi' Ha]]]]]].
    apply Hn. exists h, h'.
    rewrite (Hpos p h E), (Hpos q h' E'), <- !is_high_iff.
    split; [exact (nth_error_In _ _ E)|]. split; [exact (nth_error_In _ _ E')|]. auto.
Qed.

Lemma violations_empty_iff_check_witness :
  (forall k h, nth_error [mkHex 0 "Forest" (Some 6%Z); mkHex 1 "Hill" (Some 8%Z)] k = Some h ->
               position h = k) /\
  (violations [mkHex 0 "Forest" (Some 6%Z); mkHex 1 "Hill" (Some 8%Z)] = [] <->
   check_adjacent_high_numbers [mkHex 0 "Forest" (Some 6%Z); mkHex 1 "Hill" (Some 8%Z)] = true).
Proof.
  assert (H : forall k h, nth_error [mkHex 0 "Forest" (Some 6%Z); mkHex 1 "Hill" (Some 8%Z)] k = Some h ->
                          position h = k).
  { intros [|[|k]] h E; cbn [nth_error] in E;
      [injection E as <-; reflexivity|injection E as <-; reflexivity|destruct k; discriminate]. }
  split; [exact H|]. exact (violations_empty_iff_check _ H).
Defined.

(** X6: The desert warning of [display_statistics] is raised exactly when
    [_check_desert_placement] rejects the board. *)
Theorem desert_on_edge_iff_check (b : board) :
  desert_on_edge b = negb (check_desert_placement b).
Proof.
  induction b as [|h b IH]; [reflexivity|].
  assert (E : desert_on_edge (h :: b) =
              (is_desert (terrain h) && existsb (Nat.eqb (position h)) edge_positions)
              || desert_on_edge b)
    by (unfold desert_on_edge; cbn [filter]; destruct (is_desert (terrain h)); reflexivity).
  rewrite E, IH. cbn [check_desert_placement forallb].
  unfold check_desert_placement.
  destruct (is_desert (terrain h) && existsb (Nat.eqb (position h)) edge_positions);
    reflexivity.
Qed.

Lemma dict_add_sum (d : list (string * nat)) (k : string) (v : nat) :
  list_sum (map snd (dict_add d k v)) = list_sum (map snd d) + v.
Proof.
  induction d as [|[k0 v0] d IH]; simpl; [lia|].
  destruct (String.eqb k0 k); simpl; [lia|]. rewrite IH. lia.
Qed.

Lemma terrain_counts_fold (l : list hex) :
  forall pre d,
  NoDup (map fst d) ->
  (forall k, In k (map fst d) <-> In k (map terrain pre)) ->
  (forall k v, In (k, v) d -> v = List.length (filter (fun h => String.eqb (terrain h) k) pre)) ->
  list_sum (map snd d) = List.length pre ->
  let d' := fold_left (fun d hex_tile => dict_add d (terrain hex_tile) 1) l d in
  NoDup (map fst d') /\
  (forall k, In k (map fst d') <-> In k (map terrain (pre ++ l))) /\
  (forall k v, In (k, v) d' -> v = List.length (filter (fun h => String.eqb (terrain h) k) (pre ++ l))) /\
  list_sum (map snd d') = List.length (pre ++ l).
Proof.
  induction l as [|h l IH]; intros pre d Hnd Hk Hv Hs; simpl.
  - rewrite app_nil_r. auto.
  - replace (pre ++ h :: l) with ((pre ++ [h]) ++ l) by (rewrite <- app_assoc; reflexivity).
    apply IH.
    + apply dict_add_nodup. exact Hnd.
    + intros k. rewrite dict_add_keys, Hk, map_app, in_app_iff. simpl. intuition.
    + intros k v Hin. rewrite filter_app, length_app.
      rewrite (dict_add_values (fun k => List.length (filter (fun h => String.eqb (terrain h) k) pre))
                 d (terrain h) 1 Hv) with (k' := k) (v' := v); [|intros Hn|exact Hnd|exact Hin].
      * cbn [filter]. destruct (String.eqb (terrain h) k); reflexivity.
      * rewrite Hk in Hn. clear -Hn. induction pre as [|h' pre IHp]; [reflexivity|].
        cbn [filter map] in *. destruct (String.eqb_spec (terrain h') (terrain h)) as [E|E].
        -- exfalso. apply Hn. left. exact E.
        -- apply IHp. intros H. apply Hn. right. exact H.
    + rewrite dict_add_sum, Hs, length_app. reflexivity.
Qed.

(** X7: The terrain counts of [display_statistics] list every terrain of the
    board once and no other key, map each terrain to the number of hexes
    carrying it, and add up to the number of hexes. *)
Theorem terrain_counts_correct (b : board) :
  NoDup (map fst (terrain_counts b)) /\
  (forall t, In t (map fst (terrain_counts b)) <-> In t (map terrain b)) /\
  (forall t c, In (t, c) (terrain_counts b) ->
               c = List.length (filter (fun h => String.eqb (terrain h) t) b)) /\
  list_sum (map snd (terrain_counts b)) = List.length b.
Proof.
  exact (terrain_counts_fold b [] [] ltac:(constructor) ltac:(simpl; tauto)
           ltac:(intros k v []) eq_refl).
Qed.

(** X8: [display_statistics] builds the same per-terrain pip dict as
    [_score_resource_balance]: every terrain of the board other than
    Desert appears once and nothing else does, mapped to the sum of the
    pip weights of the hexes of that terrain. *)
Theorem resource_pip_table (b : board) :
  stats_resource_pips b = resource_pips b /\
  NoDup (map fst (resource_pips b)) /\
  (forall t, In t (map fst (resource_pips b)) <-> In t (map terrain b) /\ t <> "Desert") /\
  (forall t v, In (t, v) (resource_pips b) -> v = terrain_total b t).
Proof.
  destruct (resource_pips_fold b [] [] ltac:(constructor) ltac:(simpl; tauto)
              ltac:(intros k v [])) as [Hnd [Hk Hv]].
  fold (resource_pips b) in Hnd, Hk, Hv. simpl in Hk, Hv.
  split; [|split; [exact Hnd|split; [|exact Hv]]].
  - clear Hnd Hk Hv. unfold stats_resource_pips, resource_pips.
    generalize (@nil (string * nat)). induction b as [|h b IH]; intros d; [reflexivity|]. cbn [fold_left].
    destruct (is_desert (terrain h)); apply IH.
  - intros t. rewrite Hk. rewrite in_map_iff. split.
    + intros [h [<- Hh]]. apply filter_In in Hh. destruct Hh as [Hh Hd].
      split; [apply in_map; exact Hh|]. unfold is_desert in Hd.
      intros E. rewrite E in Hd. discriminate.
    + intros [Hin Hne]. apply in_map_iff in Hin. destruct Hin as [h [<- Hh]].
      exists h. split; [reflexivity|]. apply filter_In. split; [exact Hh|].
      unfold is_desert. destruct (String.eqb_spec (terrain h) "Desert"); [contradiction|reflexivity].
Qed.

(** ** The rows of the two displays *)

Lemma firstn_add_split {A} (a c : nat) (l : list A) :
  firstn (a + c) l = firstn a l ++ firstn c (skipn a l).
Proof.
  revert l. induction a as [|a IH]; intros l; [reflexivity|].
  destruct l as [|x l]; [rewrite !firstn_nil; reflexivity|].
  cbn [Nat.add firstn skipn app]. rewrite IH. reflexivity.
Qed.

(** X9: [display_board] and [display_board_visual] cut the board into the same
    five rows, which together are the first 19 hexes in board order: a
    board of 19 hexes is shown whole, and on a longer board (30 hexes for
    '5-6player') the hexes from index 19 on are never shown. *)
Theorem display_rows_first_19 (b : board) :
  List.concat (list_rows b) = firstn 19 b /\ map fst (visual_rows b) = list_rows b.
Proof.
  split; [|reflexivity].
  unfold list_rows, py_slice. cbn [List.concat Nat.sub skipn]. rewrite app_nil_r.
  change 19 with (3 + (4 + (5 + (4 + 3)))).
  rewrite (firstn_add_split 3), (firstn_add_split 4), (firstn_add_split 5), (firstn_add_split 4).
  rewrite !skipn_skipn. reflexivity.
Qed.

(** ** The pip-adjacency penalty counts adjacent pairs once *)

Lemma remove_first_perm (x : nat * nat) (l l' : list (nat * nat)) :
  remove_first x l = Some l' -> Permutation l (x :: l').
Proof.
  revert l'. induction l as [|y l IH]; intros l' E; cbn [remove_first] in E; [discriminate|].
  destruct (pair_eqb x y) eqn:Exy.
  - injection E as <-. unfold pair_eqb in Exy. apply andb_prop in Exy.
    destruct Exy as [E1 E2]. apply Nat.eqb_eq in E1, E2.
    destruct x, y. cbn in E1, E2. subst. reflexivity.
  - destruct (remove_first x l) as [r|] eqn:Er; [|discriminate]. injection E as <-.
    eapply perm_trans; [apply perm_skip, IH; reflexivity|]. apply perm_swap.
Qed.

Lemma perm_check_sound (l1 l2 : list (nat * nat)) : perm_check l1 l2 = true -> Permutation l1 l2.
Proof.
  revert l2. induction l1 as [|x l1 IH]; intros l2 E; cbn [perm_check] in E.
  - destruct l2; [reflexivity|discriminate].
  - destruct (remove_first x l2) as [l2'|] eqn:Er; [|discriminate].
    symmetry. eapply perm_trans; [apply (remove_first_perm x l2 l2' Er)|].
    apply perm_skip. symmetry. apply IH. exact E.
Qed.

Lemma table_pairs_edges :
  Permutation table_pairs (adjacent_edges ++ map (fun pq => (snd pq, fst pq)) adjacent_edges).
Proof. apply perm_check_sound. vm_compute. reflexivity. Qed.

Lemma pairs_off_board (b : board) (l : list nat) :
  (forall p, In p l -> adjacency p = [] \/ pip_at b p = 0) ->
  filter (fun pq => (4 <=? pip_at b (fst pq)) && (4 <=? pip_at b (snd pq)))
    (flat_map (fun p => map (fun q => (p, q)) (adjacency p)) l) = [].
Proof.
  induction l as [|p l IH]; intros H; [reflexivity|].
  cbn [flat_map]. rewrite filter_app, IH by (intros p' Hp'; apply H; right; exact Hp').
  rewrite app_nil_r. destruct (H p (or_introl eq_refl)) as [E|E].
  - rewrite E. reflexivity.
  - rewrite filter_map_swap, filter_false_nil; [reflexivity|].
    intros q. cbn [fst snd]. rewrite E. reflexivity.
Qed.

Lemma adjacent_pairs_table (b : board) :
  List.length (filter (fun pq => (4 <=? pip_at b (fst pq)) && (4 <=? pip_at b (snd pq)))
                      (adjacent_pairs b)) =
  List.length (filter (fun pq => (4 <=? pip_at b (fst pq)) && (4 <=? pip_at b (snd pq)))
                      table_pairs).
Proof.
  unfold adjacent_pairs, table_pairs.
  destruct (Nat.le_ge_cases (List.length b) 19) as [L|L].
  - replace 19 with (List.length b + (19 - List.length b)) by lia.
    rewrite seq_app, flat_map_app, filter_app, length_app.
    rewrite (pairs_off_board b (seq (0 + List.length b) _)); [cbn [List.length]; rewrite Nat.add_0_r; reflexivity|].
    intros p Hp. right. apply in_seq in Hp. unfold pip_at.
    rewrite (proj2 (nth_error_None b p)) by lia. reflexivity.
  - replace (List.length b) with (19 + (List.length b - 19)) by lia.
    rewrite seq_app, flat_map_app, filter_app, length_app.
    rewrite (pairs_off_board b (seq (0 + 19) _)); [cbn [List.length]; rewrite Nat.add_0_r; reflexivity|].
    intros p Hp. left. apply in_seq in Hp. apply adjacency_ge_19. lia.
Qed.

(** X10: [_score_pip_adjacency] counts each adjacent pair of hexes with pip
    weight at least 4 twice, once from each end, so its [penalty / 2] is
    always a whole number: the number of edges [(p, q)], [p < q], of the
    adjacency table whose two hexes are on the board with pip weight at
    least 4. *)
Theorem score_pip_adjacency_whole (b : board) :
  score_pip_adjacency b =
  INR (List.length (filter (fun pq => (4 <=? pip_at b (fst pq)) && (4 <=? pip_at b (snd pq)))
                           adjacent_edges)).
Proof.
  rewrite score_pip_adjacency_spec. unfold pip_adjacency_penalty_spec.
  rewrite adjacent_pairs_table.
  rewrite (Permutation_length (Permutation_filter' _ _ _ table_pairs_edges)).
  rewrite filter_app, length_app, filter_map_swap, length_map.
  rewrite (filter_ext (fun x => (4 <=? pip_at b (fst ((fun pq : nat * nat => (snd pq, fst pq)) x)))
                             && (4 <=? pip_at b (snd ((fun pq : nat * nat => (snd pq, fst pq)) x))))
                      (fun pq => (4 <=? pip_at b (fst pq)) && (4 <=? pip_at b (snd pq))))
    by (intros x; cbn [fst snd]; apply andb_comm).
  rewrite plus_INR. lra.
Qed.

(** ** When the resource balance is zero *)

Section RealFacts.
Local Open Scope R_scope.

Lemma Rsum_nonneg (l : list R) : (forall x, In x l -> 0 <= x)%R -> (0 <= Rsum l)%R.
Proof.
  induction l as [|a l IH]; intros H; unfold Rsum in *; simpl; [lra|].
  pose proof (H a (or_introl eq_refl)).
  pose proof (IH (fun x Hx => H x (or_intror Hx))). lra.
Qed.

Lemma Rsum_zero (l : list R) :
  (forall x, In x l -> 0 <= x)%R -> Rsum l = 0%R -> forall x, In x l -> x = 0%R.
Proof.
  induction l as [|a l IH]; intros Hn Hs x Hx; [destruct Hx|].
  pose proof (Hn a (or_introl eq_refl)) as Ha.
  pose proof (Rsum_nonneg l (fun y Hy => Hn y (or_intror Hy))) as Hl.
  unfold Rsum in Hs, Hl. simpl in Hs. fold (Rsum l) in Hs, Hl.
  destruct Hx as [<-|Hx]; [lra|].
  apply IH; [intros y Hy; apply Hn; right; exact Hy|lra|exact Hx].
Qed.

Lemma Rsum_const (l : list R) (c : R) :
  (forall x, In x l -> x = c) -> Rsum l = (INR (List.length l) * c)%R.
Proof.
  induction l as [|a l IH]; intros H; unfold Rsum in *; cbn [fold_right List.length];
    [simpl; ring|].
  rewrite IH, (H a (or_introl eq_refl)) by (intros x Hx; apply H; right; exact Hx).
  rewrite S_INR. ring.
Qed.

Lemma pop_std_zero_iff (xs : list R) :
  pop_std xs = 0%R <-> (forall x y, In x xs -> In y xs -> x = y).
Proof.
  destruct xs as [|x0 xs']; [split; [intros _ x y []|reflexivity]|].
  set (l := x0 :: xs').
  assert (E : pop_std l = sqrt (Rsum (map (fun x => (x - mean l) ^ 2) l) / INR (List.length l)))
    by reflexivity.
  assert (Hn : (0 < INR (List.length l))%R) by (apply lt_0_INR; simpl; lia).
  rewrite E. split.
  - intros H.
    assert (Hs : (0 <= Rsum (map (fun x => (x - mean l) ^ 2) l))%R).
    { apply Rsum_nonneg. intros y Hy. apply in_map_iff in Hy. destruct Hy as [x [<- _]].
      apply pow2_ge_0. }
    apply sqrt_eq_0 in H; [|unfold Rdiv; apply Rmult_le_pos; [exact Hs|left; apply Rinv_0_lt_compat; exact Hn]].
    assert (H0 : Rsum (map (fun x => (x - mean l) ^ 2) l) = 0%R).
    { assert (Hne : INR (List.length l) <> 0%R) by lra.
      apply (f_equal (fun r => r * INR (List.length l))%R) in H.
      unfold Rdiv in H. rewrite Rmult_assoc, Rinv_l, Rmult_1_r, Rmult_0_l in H by exact Hne.
      exact H. }
    assert (Hm : forall x, In x l -> x = mean l).
    { intros x Hx.
      assert (Hz : ((x - mean l) ^ 2)%R = 0%R).
      { apply (Rsum_zero _ (fun y Hy => ltac:(apply in_map_iff in Hy;
                 destruct Hy as [z [<- _]]; apply pow2_ge_0)) H0).
        apply in_map_iff. exists x. auto. }
      destruct (Req_dec (x - mean l) 0) as [Z|Z]; [lra|].
      exfalso. exact (pow_nonzero _ 2 Z Hz). }
    intros x y Hx Hy. rewrite (Hm x Hx), (Hm y Hy). reflexivity.
  - intros H.
    assert (Hc : forall x, In x l -> x = x0) by (intros x Hx; apply H; [exact Hx|left; reflexivity]).
    assert (Hm : mean l = x0).
    { unfold mean. rewrite (Rsum_const l x0 Hc). field. lra. }
    rewrite Hm, (Rsum_const _ 0%R), Rmult_0_r, Rdiv_0_l; [apply sqrt_0|].
    intros y Hy. apply in_map_iff in Hy. destruct Hy as [x [<- Hx]].
    rewrite (Hc x Hx). ring.
Qed.

End RealFacts.

Lemma nondesert_terrains_In (b : board) (t : string) :
  In t (nondesert_terrains b) <-> In t (map terrain b) /\ t <> "Desert".
Proof.
  unfold nondesert_terrains. rewrite nodup_In, in_map_iff. split.
  - intros [h [<- Hh]]. apply filter_In in Hh. destruct Hh as [Hh Hd].
    split; [apply in_map; exact Hh|]. unfold is_desert in Hd.
    intros E. rewrite E in Hd. discriminate.
  - intros [Hin Hne]. apply in_map_iff in Hin. destruct Hin as [h [<- Hh]].
    exists h. split; [reflexivity|]. apply filter_In. split; [exact Hh|].
    unfold is_desert. destruct (String.eqb_spec (terrain h) "Desert"); [contradiction|reflexivity].
Qed.

(** X11: [_score_resource_balance] is zero exactly when all terrains of the board
    other than Desert have the same total pip weight (in particular for a
    board with at most one such terrain). *)
Theorem score_resource_balance_zero_iff (b : board) :
  score_resource_balance b = 0%R <->
  (forall t t', In t (map terrain b) -> t <> "Desert" ->
                In t' (map terrain b) -> t' <> "Desert" ->
                terrain_total b t = terrain_total b t').
Proof.
  rewrite score_resource_balance_spec. unfold balance_penalty_spec. rewrite pop_std_zero_iff.
  split.
  - intros H t t' Ht Hd Ht' Hd'. apply INR_eq.
    apply H; apply (in_map (fun t => INR (terrain_total b t)));
      apply nondesert_terrains_In; auto.
  - intros H x y Hx Hy. apply in_map_iff in Hx, Hy.
    destruct Hx as [t [<- Ht]]. destruct Hy as [t' [<- Ht']].
    apply nondesert_terrains_In in Ht, Ht'. f_equal. apply H; tauto.
Qed.

(** ** Total pip weight of the generated boards *)

Lemma resource_pips_sum_fold (l : list hex) (d : list (string * nat)) :
  list_sum (map snd (fold_left (fun d hex_tile =>
    if is_desert (terrain hex_tile) then d
    else dict_add d (terrain hex_tile) (get_pip_count (number hex_tile))) l d)) =
  list_sum (map snd d) +
  list_sum (map (fun h => if is_desert (terrain h) then 0 else get_pip_count (number h)) l).
Proof.
  revert d. induction l as [|h l IH]; intros d; simpl; [lia|].
  rewrite IH. destruct (is_desert (terrain h)); [lia|]. rewrite dict_add_sum. lia.
Qed.

Lemma pips_nondesert (b : board) :
  (forall h, In h b -> (terrain h = "Desert" -> number h = None) /\
                       (terrain h <> "Desert" -> exists n, number h = Some n)) ->
  list_sum (map (fun h => if is_desert (terrain h) then 0 else get_pip_count (number h)) b) =
  list_sum (map (fun z => get_pip_count (Some z)) (nondesert_numbers b)).
Proof.
  induction b as [|h b IH]; intros Hb; [reflexivity|].
  assert (Eh : nondesert_numbers (h :: b) =
                (if is_desert (terrain h) then []
                 else match number h with Some n => [n] | None => [] end)
                ++ nondesert_numbers b) by reflexivity.
  rewrite Eh, map_app, list_sum_app. cbn [map list_sum fold_right].
  rewrite <- IH by (intros h' Hh'; apply Hb; right; exact Hh').
  destruct (Hb h (or_introl eq_refl)) as [Hd Hn].
  unfold is_desert. destruct (String.eqb_spec (terrain h) "Desert") as [E|E]; [reflexivity|].
  destruct (Hn E) as [z Ez]. rewrite Ez. unfold list_sum. cbn [map fold_right]. lia.
Qed.

(** X12: Every board [generate_board] returns carries the same total pip weight
    (the sum of the per-terrain values [display_statistics] prints, and of
    the values [_score_resource_balance] averages): 58 for 'base' and
    'custom', 88 for '5-6player'. *)
Theorem generate_board_total_pips
  (name : string) (terrains : list string) (numbers : list Z) (n : nat) (st : rng) :
  setup_distribution name = Some (terrains, numbers) ->
  exists b st', generate_board (new_generator name) n st = (inr b, st') /\
    list_sum (map snd (resource_pips b)) = (if String.eqb name "5-6player" then 88 else 58).
Proof.
  intros Hd.
  destruct (generate_board_ok name terrains numbers n st Hd) as [b [st' [E _]]].
  exists b, st'. split; [exact E|].
  destruct (generate_board_preserves (new_generator name) _
              (candidate_props name terrains numbers Hd) n st b st' E)
    as [_ [_ [_ [Hp Hb]]]].
  unfold resource_pips. rewrite resource_pips_sum_fold, (pips_nondesert b Hb).
  rewrite (Permutation_list_sum (Permutation_map (fun z => get_pip_count (Some z)) Hp)).
  unfold setup_distribution in Hd.
  destruct (String.eqb_spec name "base") as [->|N1]; [injection Hd as _ <-; reflexivity|].
  destruct (String.eqb_spec name "5-6player") as [->|N2]; [injection Hd as _ <-; reflexivity|].
  destruct (String.eqb_spec name "custom") as [->|N3]; [injection Hd as _ <-; reflexivity|].
  discriminate.
Qed.

Lemma generate_board_total_pips_witness :
  exists terrains numbers,
  setup_distribution "base" = Some (terrains, numbers) /\
  exists b st', generate_board (new_generator "base") 1000 rng_5k = (inr b, st') /\
    list_sum (map snd (resource_pips b)) = (if String.eqb "base" "5-6player" then 88 else 58).
Proof.
  destruct (setup_distribution "base") as [[ts ns]|] eqn:Hd;
    [|vm_compute in Hd; discriminate Hd].
  exists ts, ns. split; [reflexivity|].
  exact (generate_board_total_pips "base" ts ns 1000 rng_5k Hd).
Defined.
